(** * Operator console: dataset editor and task monitor

    A shallow embedding of the two client-side scripts of the scraping
    console:

    - the product editor ([ProductEditor], [addNewProduct], [resetChanges],
      [fetchProductWeight], [uploadProducts]);
    - the task monitor ([FashionScraper]: [startScraping], [clearAll],
      [terminateActiveTasks], [connectWebSocket], [addLogEntry]).

    JavaScript objects that are mutated in place and can be reached through
    more than one reference (the [product_images] arrays) live in an explicit
    store of arrays; everything else is embedded by value. *)

From Stdlib Require Import ZArith Lia.
From stdpp Require Import base option list strings pretty gmap sets fin_maps.

Local Open Scope list_scope.

(* ===================================================================== *)
(** * The product editor *)
(* ===================================================================== *)

Module Editor.

(** Address of an array object in the store. *)
Abbreviation loc := positive.

(** The store of [product_images] arrays. *)
Abbreviation store := (gmap loc (list string)).

(** JavaScript truthiness of a string: only the empty string is falsy. *)
Definition truthy (s : string) : bool :=
  match s with EmptyString => false | _ => true end.

(** What a multi-select property of a product can hold: an array of
    strings, a bare string, or nothing.  These arrays are only ever read
    by copy ([[...product.sizes]]) and replaced wholesale
    ([product.sizes = value]); no code path mutates one in place, so they
    are embedded by value. *)
Inductive jsfield :=
| Arr (l : list string)
| Str (s : string)
| Undef.

(** A product object.  Every property may be missing ([None], [Undef]):
    the code guards each read with [||] or a truthiness test.  The type of
    the images property is a parameter: a reference [loc] for live objects,
    the array itself for the JSON text of an object. *)
Record product_ (I : Type) := Product {
  product_name : option string;
  price : option Z;
  discounted_price : option Z;
  premium : option bool;
  availability : option string;
  description : option string;
  sizes : jsfield;
  colors : jsfield;
  material : option string;
  categories : jsfield;
  product_images : option I;
  url : option string;
  source_url : option string;
  timestamp : option string;
  extraction_method : option string
}.

Arguments Product {I}.
Arguments product_name {I}.
Arguments price {I}.
Arguments discounted_price {I}.
Arguments premium {I}.
Arguments availability {I}.
Arguments description {I}.
Arguments sizes {I}.
Arguments colors {I}.
Arguments material {I}.
Arguments categories {I}.
Arguments product_images {I}.
Arguments url {I}.
Arguments source_url {I}.
Arguments timestamp {I}.
Arguments extraction_method {I}.

(** A live product object, and the JSON value of one. *)
Abbreviation product := (product_ loc).
Abbreviation json_product := (product_ (list string)).

(** The object [{}]. *)
Definition empty_object {I} : product_ I :=
  Product None None None None None None Undef Undef None Undef None
          None None None None.

Section Setters.
Context {I : Type}.

Definition set_product_name (v : option string) (p : product_ I) : product_ I :=
  Product v (price p) (discounted_price p) (premium p) (availability p)
          (description p) (sizes p) (colors p) (material p) (categories p)
          (product_images p) (url p) (source_url p) (timestamp p)
          (extraction_method p).

Definition set_sizes (v : jsfield) (p : product_ I) : product_ I :=
  Product (product_name p) (price p) (discounted_price p) (premium p)
          (availability p) (description p) v (colors p) (material p)
          (categories p) (product_images p) (url p) (source_url p)
          (timestamp p) (extraction_method p).

Definition set_colors (v : jsfield) (p : product_ I) : product_ I :=
  Product (product_name p) (price p) (discounted_price p) (premium p)
          (availability p) (description p) (sizes p) v (material p)
          (categories p) (product_images p) (url p) (source_url p)
          (timestamp p) (extraction_method p).

Definition set_material (v : option string) (p : product_ I) : product_ I :=
  Product (product_name p) (price p) (discounted_price p) (premium p)
          (availability p) (description p) (sizes p) (colors p) v
          (categories p) (product_images p) (url p) (source_url p)
          (timestamp p) (extraction_method p).

Definition set_categories (v : jsfield) (p : product_ I) : product_ I :=
  Product (product_name p) (price p) (discounted_price p) (premium p)
          (availability p) (description p) (sizes p) (colors p) (material p)
          v (product_images p) (url p) (source_url p) (timestamp p)
          (extraction_method p).
End Setters.

(** Replace the images property, possibly changing its representation. *)
Definition with_images {I J} (v : option J) (p : product_ I) : product_ J :=
  Product (product_name p) (price p) (discounted_price p) (premium p)
          (availability p) (description p) (sizes p) (colors p) (material p)
          (categories p) v (url p) (source_url p) (timestamp p)
          (extraction_method p).

(** The editor: the fields of [ProductEditor], the array store, and the row
    check-boxes of the rendered table ([.row-checkbox:checked]), which are
    the editor's selection. *)
Record editor := Editor {
  products : list product;
  originalProducts : list product;
  modifiedRows : gset nat;
  arrays : store;
  selected : gset nat
}.

(** ** JSON.parse(JSON.stringify(...)) *)

(** [JSON.stringify]: the text of a product holds the contents of its
    images array, not the reference. *)
Definition stringify (h : store) (p : product) : json_product :=
  with_images (product_images p ≫= (h !!.)) p.

(** [JSON.parse] of one product: a new array object is allocated for the
    images property when it is present. *)
Definition parse (v : json_product) (h : store) : product * store :=
  match product_images v with
  | Some imgs =>
      let l := fresh (dom h) in
      (with_images (Some l) v, <[l := imgs]> h)
  | None => (with_images None v, h)
  end.

Fixpoint parse_all (vs : list json_product) (h : store) : list product * store :=
  match vs with
  | [] => ([], h)
  | v :: vs' =>
      let '(p, h1) := parse v h in
      let '(ps, h2) := parse_all vs' h1 in
      (p :: ps, h2)
  end.

(** [JSON.parse(JSON.stringify(ps))]. *)
Definition deep_copy (ps : list product) (h : store) : list product * store :=
  parse_all (stringify h <$> ps) h.

(** ** Rendering *)

(** [renderTable] empties the table body and builds every row anew; the new
    check-boxes are unchecked. *)
Definition renderTable (st : editor) : editor :=
  Editor (products st) (originalProducts st) (modifiedRows st) (arrays st) ∅.

(** The operator ticks or unticks the check-box of a rendered row. *)
Definition toggleRowCheckbox (index : nat) (st : editor) : editor :=
  Editor (products st) (originalProducts st) (modifiedRows st) (arrays st)
         (if bool_decide (index ∈ selected st)
          then selected st ∖ {[index]} else selected st ∪ {[index]}).

(** ** Loading *)

(** [loadProducts]: the working array comes from [JSON.parse] of the staged
    text (or a literal), and the snapshot is a deep copy of it. *)
Definition loadProducts (stored : list json_product) : editor :=
  let '(ps, h1) := parse_all stored ∅ in
  let '(os, h2) := deep_copy ps h1 in
  Editor ps os ∅ h2 ∅.

(** ** Multi-select fields *)

Inductive field :=
| f_sizes
| f_colors
| f_materials
| f_categories
| f_other (name : string).

(** [Array.isArray(x) ? [...x] : (x ? [x] : [])] *)
Definition array_or_single (v : jsfield) : list string :=
  match v with
  | Arr l => l
  | Str s => if truthy s then [s] else []
  | Undef => []
  end.

(** [getCurrentValues]; [None] is the [TypeError] raised when a property
    of [this.products[index]] is read and there is no such product.  For
    a field that is none of the four nothing is read. *)
Definition getCurrentValues (f : field) (index : nat) (st : editor)
  : option (list string) :=
  match products st !! index with
  | Some product =>
      Some match f with
           | f_sizes => array_or_single (sizes product)
           | f_colors => array_or_single (colors product)
           | f_materials =>
               match material product with
               | Some m => if truthy m then [m] else []
               | None => []
               end
           | f_categories => array_or_single (categories product)
           | f_other _ => []
           end
  | None =>
      match f with
      | f_other _ => Some []
      | _ => None
      end
  end.

Definition markModified (index : nat) (st : editor) : editor :=
  Editor (products st) (originalProducts st) ({[index]} ∪ modifiedRows st)
         (arrays st) (selected st).

(** The assignment performed by [updateProductValue] on the product. *)
Definition assign_field (f : field) (value : list string) (p : product) : product :=
  match f with
  | f_sizes => set_sizes (Arr value) p
  | f_colors => set_colors (Arr value) p
  | f_materials =>
      set_material (Some match value with v :: _ => v | [] => "" end) p
  | f_categories => set_categories (Arr value) p
  | f_other _ => p
  end.

Definition updateProductValue (f : field) (value : list string) (index : nat)
    (st : editor) : option editor :=
  match products st !! index with
  | Some product =>
      Some (markModified index
              (Editor (<[index := assign_field f value product]> (products st))
                      (originalProducts st) (modifiedRows st) (arrays st)
                      (selected st)))
  | None =>
      match f with
      | f_other _ => Some (markModified index st)
      | _ => None
      end
  end.

(** [selectOption]: with [multiple] the value is toggled, otherwise it
    replaces the selection. *)
Definition selectOption (f : field) (index : nat) (value : string)
    (multiple : bool) (st : editor) : option editor :=
  getCurrentValues f index st ≫= λ currentValues : list string,
  let currentValues' :=
    if multiple then
      if bool_decide (value ∈ currentValues)
      then filter (λ v, v ≠ value) currentValues
      else currentValues ++ [value]
    else [value] in
  st1 ← updateProductValue f currentValues' index st;
  Some (markModified index st1).

Definition removeOption (f : field) (index : nat) (value : string)
    (st : editor) : option editor :=
  getCurrentValues f index st ≫= λ currentValues : list string,
  st1 ← updateProductValue f (filter (λ v, v ≠ value) currentValues) index st;
  Some (markModified index st1).

(** ** Images *)

(** [this.products[productIndex].product_images.splice(imageIndex, 1)],
    then [markModified].  [None] is the [TypeError] raised when the product
    or its images property is undefined; it is raised before anything is
    written. *)
Definition removeImageFromModal (productIndex imageIndex : nat) (st : editor)
  : option editor :=
  product ← products st !! productIndex;
  l ← product_images product;
  Some (markModified productIndex
          (Editor (products st) (originalProducts st) (modifiedRows st)
                  (alter (delete imageIndex) l (arrays st)) (selected st))).

(** [removeImage]: the same behind a [confirm] dialog, followed by a
    re-render. *)
Definition removeImage (productIndex imageIndex : nat) (confirmed : bool)
    (st : editor) : option editor :=
  if confirmed then renderTable <$> removeImageFromModal productIndex imageIndex st
  else Some st.

(** [addImage].  [trimmedUrl] is the answer of the prompt after [trim()]
    ([None]: the prompt was cancelled or the answer was blank) and [valid]
    the verdict of [isValidImageUrl] on it; URL parsing and the extension
    pattern are browser facilities that are not embedded. *)
Definition addImage (productIndex : nat) (trimmedUrl : option string)
    (valid : bool) (st : editor) : option editor :=
  match trimmedUrl with
  | Some u =>
      if valid then
        product ← products st !! productIndex;
        l ← product_images product;
        Some (renderTable (markModified productIndex
                (Editor (products st) (originalProducts st) (modifiedRows st)
                        (alter (λ imgs, imgs ++ [u]) l (arrays st))
                        (selected st))))
      else Some st
  | None => Some st
  end.

(** ** Structural edits *)

(** [duplicateRow]: the spread [{ ...this.products[index] }] copies the
    properties of the product, so the copy holds the same reference to the
    images array; spreading [undefined] gives [{}]. *)
Definition duplicateRow (index : nat) (st : editor) : editor :=
  let productToDuplicate := default empty_object (products st !! index) in
  let productToDuplicate :=
    set_product_name
      (Some (default ""%string (product_name productToDuplicate) +:+ " (Copy)"))
      productToDuplicate in
  renderTable
    (Editor (products st ++ [productToDuplicate]) (originalProducts st)
            (modifiedRows st) (arrays st) (selected st)).

(** [deleteRow]: [splice(index, 1)] on the rows, [delete(index)] on the set
    of modified rows, then a re-render. *)
Definition deleteRow (index : nat) (confirmed : bool) (st : editor) : editor :=
  if confirmed then
    renderTable
      (Editor (delete index (products st)) (originalProducts st)
              (modifiedRows st ∖ {[index]}) (arrays st) (selected st))
  else st.

(** The object literal of [addNewProduct]; [now] is
    [new Date().toISOString()]. *)
Definition newProduct {I} (images : I) (now : string) : product_ I :=
  {| product_name := Some "New Product"%string;
     price := Some 0%Z;
     discounted_price := Some 0%Z;
     premium := Some false;
     availability := Some "in-stock"%string;
     description := Some ""%string;
     sizes := Arr [];
     colors := Arr [];
     material := Some ""%string;
     categories := Arr [];
     product_images := Some images;
     url := Some ""%string;
     source_url := None;
     timestamp := Some now;
     extraction_method := Some "manual_add"%string |}.

Definition addNewProduct (now : string) (st : editor) : editor :=
  let l := fresh (dom (arrays st)) in
  renderTable
    (Editor (products st ++ [newProduct l now]) (originalProducts st)
            (modifiedRows st) (<[l := []]> (arrays st)) (selected st)).

(** [resetChanges]. *)
Definition resetChanges (confirmed : bool) (st : editor) : editor :=
  if confirmed then
    let '(ps, h) := deep_copy (originalProducts st) (arrays st) in
    renderTable (Editor ps (originalProducts st) ∅ h (selected st))
  else st.

(** [saveChanges], as far as the editor is concerned: the collected rows go
    to the staging area of the browser, which is not part of the editor. *)
Definition saveChanges (st : editor) : editor :=
  renderTable
    (Editor (products st) (originalProducts st) ∅ (arrays st) (selected st)).

(** ** Sessions *)

(** What the operator can do to the table. *)
Inductive action :=
| a_cell_changed (index : nat)
| a_toggleRowCheckbox (index : nat)
| a_selectOption (f : field) (index : nat) (value : string) (multiple : bool)
| a_removeOption (f : field) (index : nat) (value : string)
| a_removeImage (productIndex imageIndex : nat) (confirmed : bool)
| a_removeImageFromModal (productIndex imageIndex : nat)
| a_addImage (productIndex : nat) (trimmedUrl : option string) (valid : bool)
| a_duplicateRow (index : nat)
| a_deleteRow (index : nat) (confirmed : bool)
| a_addNewProduct (now : string)
| a_resetChanges (confirmed : bool)
| a_saveChanges.

(** One event handler.  A handler that raises is abandoned by the browser;
    every raise above happens before the first write, so the editor is then
    as it was.  The remove button of the image gallery re-renders after
    [removeImageFromModal]; the [onchange] of a text, number or select cell
    only calls [markModified]. *)
Definition perform (a : action) (st : editor) : editor :=
  match a with
  | a_cell_changed i => markModified i st
  | a_toggleRowCheckbox i => toggleRowCheckbox i st
  | a_selectOption f i v m => default st (selectOption f i v m st)
  | a_removeOption f i v => default st (removeOption f i v st)
  | a_removeImage p i c => default st (removeImage p i c st)
  | a_removeImageFromModal p i =>
      default st (renderTable <$> removeImageFromModal p i st)
  | a_addImage p u v => default st (addImage p u v st)
  | a_duplicateRow i => duplicateRow i st
  | a_deleteRow i c => deleteRow i c st
  | a_addNewProduct now => addNewProduct now st
  | a_resetChanges c => resetChanges c st
  | a_saveChanges => saveChanges st
  end.

Definition session (acts : list action) (st : editor) : editor :=
  foldl (λ s a, perform a s) st acts.

(** The images of a row, read through its reference. *)
Definition images_of (index : nat) (st : editor) : option (list string) :=
  product ← products st !! index;
  l ← product_images product;
  arrays st !! l.

(** The references held by a list of products. *)
Definition image_refs (ps : list product) : list loc := omap product_images ps.

(** The working rows and the snapshot as JSON values: what a deep
    comparison looks at. *)
Definition working_value (st : editor) : list json_product :=
  stringify (arrays st) <$> products st.

Definition snapshot_value (st : editor) : list json_product :=
  stringify (arrays st) <$> originalProducts st.

(** The snapshot never shares an array with the working rows, and every
    array it refers to exists. *)
Definition separated (st : editor) : Prop :=
  (∀ l, l ∈ image_refs (originalProducts st) → l ∈ dom (arrays st)) ∧
  (∀ l, l ∈ image_refs (products st) → l ∉ image_refs (originalProducts st)).

(** What [getCurrentValues] reads from a field right after
    [updateProductValue] stored [value] in it: the material keeps the first
    value only, and an unknown field name stores nothing. *)
Definition readback (f : field) (value : list string) : list string :=
  match f with
  | f_materials =>
      match value with
      | v :: _ => if truthy v then [v] else []
      | [] => []
      end
  | f_other _ => []
  | _ => value
  end.


(** What every handler guarantees about the store: the snapshot variable
    is not assigned, no array is dropped, the arrays of the snapshot are
    not written, and a reference held by a row afterwards was held by a
    row before or is newly allocated. *)
Definition frames (st st' : editor) : Prop :=
  originalProducts st' = originalProducts st ∧
  dom (arrays st) ⊆ dom (arrays st') ∧
  (∀ l, l ∉ image_refs (products st) → l ∈ dom (arrays st) →
        arrays st' !! l = arrays st !! l) ∧
  (∀ l, l ∈ image_refs (products st') →
        l ∈ image_refs (products st) ∨ l ∉ dom (arrays st)).

(** ** Sample data *)

(** The two demonstration products of [loadProducts]. *)
Definition demo_products : list json_product :=
  [ {| product_name := Some "Patachio Princess Gown"%string;
       price := Some 8999%Z;
       discounted_price := Some 0%Z;
       premium := Some false;
       availability := Some "in-stock"%string;
       description := Some "Introducing our 'Patachio Princess Gown', a captivating blend of elegance and playfulness."%string;
       sizes := Arr ["S"; "M"; "L"]%string;
       colors := Arr ["Purple"; "Lilac"]%string;
       material := Some "Satin"%string;
       categories := Arr ["Dresses"; "Women"; "Formal"]%string;
       product_images := Some [];
       url := None; source_url := None; timestamp := None;
       extraction_method := None |};
    {| product_name := Some "Lilac Princess Purple Ball Gown"%string;
       price := Some 10999%Z;
       discounted_price := Some 0%Z;
       premium := Some true;
       availability := Some "in-stock"%string;
       description := Some "Introducing 'Lilac Princess,' a stunning purple ball gown that embodies elegance"%string;
       sizes := Arr ["M"; "L"; "XL"]%string;
       colors := Arr ["Purple"; "Lavender"]%string;
       material := Some "Chiffon"%string;
       categories := Arr ["Dresses"; "Women"; "Formal"]%string;
       product_images := Some [];
       url := None; source_url := None; timestamp := None;
       extraction_method := None |} ].

(** The editor showing the demonstration products. *)
Definition demo : editor := loadProducts demo_products.

(** The operator ticks the second row and edits its name, then adds two
    pictures to the first row. *)
Definition demo_edited : editor :=
  session [ a_toggleRowCheckbox 1; a_cell_changed 1 ] demo.

Definition demo_pictures : editor :=
  session [ a_addImage 0 (Some "https://cdn.shop/gown-front.jpg"%string) true;
            a_addImage 0 (Some "https://cdn.shop/gown-back.jpg"%string) true ]
          demo.


(** ** The properties as the specification words them *)

(** Deleting row [k] re-keys both index sets: [k] leaves them and every
    larger index moves down by one. *)
Definition rekeyed (k : nat) (before after : gset nat) : Prop :=
  ∀ j, j ∈ after ↔ (j < k ∧ j ∈ before) ∨ (k ≤ j ∧ S j ∈ before).

Definition delete_rekeys (k : nat) (st st' : editor) : Prop :=
  products st' = delete k (products st) ∧
  rekeyed k (modifiedRows st) (modifiedRows st') ∧
  rekeyed k (selected st) (selected st') ∧
  (∀ j, j ∈ modifiedRows st' → j < length (products st')) ∧
  (∀ j, j ∈ selected st' → j < length (products st')).


End Editor.

(* ===================================================================== *)
(** * Weights and upload *)
(* ===================================================================== *)

Module Upload.
Import Editor.

(** A row as [collectProductData] builds it: the fields of the product and
    a [weight].  Numbers are only passed along here; integers stand for
    them. *)
Record collected := Collected {
  row : json_product;
  weight : Z
}.

(** The argument of [fetchProductWeight]: the first category, or whatever
    [product.categories] holds when that is not a non-empty array. *)
Inductive category_name :=
| name_string (s : string)
| name_array (l : list string).

Definition name_truthy (c : category_name) : bool :=
  match c with
  | name_string s => truthy s
  | name_array _ => true
  end.

(** The JSON object answered by the weight endpoint, as far as the client
    looks at it: the truthiness of [success], [weight] when defined, and
    [data] when truthy, with its [weight] when defined. *)
Record weight_body := WeightBody {
  body_success : bool;
  body_weight : option Z;
  body_data : option (option Z)
}.

(** What can come of one call of [fetch] followed by [response.json()]. *)
Inductive response (A : Type) :=
| fetch_rejects
| http_status (status : nat)
| json_rejects
| json_not_object
| json_body (a : A).

Arguments fetch_rejects {A}.
Arguments http_status {A}.
Arguments json_rejects {A}.
Arguments json_not_object {A}.
Arguments json_body {A}.

(** The weight service: its answer may depend on every lookup made so far.
    The list of lookups made so far is the state of the network. *)
Abbreviation service := (list category_name → category_name → response weight_body).

(** [fetchProductWeight]: every failure is caught and becomes [0]. *)
Definition fetchProductWeight (srv : service) (categoryName : category_name)
    (sent : list category_name) : Z * list category_name :=
  let w :=
    match srv sent categoryName with
    | fetch_rejects => 0%Z
    | http_status _ => 0%Z
    | json_rejects => 0%Z
    | json_not_object => 0%Z
    | json_body data =>
        match body_success data, body_weight data with
        | true, Some w => w
        | _, _ =>
            match body_data data with
            | Some (Some w) => w
            | _ =>
                match body_weight data with
                | Some w => w
                | None => 0%Z
                end
            end
        end
    end in
  (w, sent ++ [categoryName]).

(** The [categoryName] chosen in the loop of [uploadProducts].  An empty
    array fails the first test and passes the second one, because an array
    is truthy whatever its length. *)
Definition categoryName_of (product : collected) : category_name :=
  match categories (row product) with
  | Arr (c :: _) => name_string c
  | Arr [] => name_array []
  | Str s => if truthy s then name_string s else name_string ""
  | Undef => name_string ""
  end.

(** The loop of [uploadProducts] that builds [productsWithWeights]: one
    product after the other, each lookup awaited before the next row is
    looked at. *)
Fixpoint enrich (srv : service) (products : list collected)
    (sent : list category_name) : list collected * list category_name :=
  match products with
  | [] => ([], sent)
  | product :: rest =>
      let categoryName := categoryName_of product in
      let '(weight, sent1) :=
        if name_truthy categoryName
        then fetchProductWeight srv categoryName sent
        else (0%Z, sent) in
      let '(productsWithWeights, sent2) := enrich srv rest sent1 in
      (Collected (row product) weight :: productsWithWeights, sent2)
  end.

(** The body posted to the upload endpoint.  The collected rows have no
    [image_sizes] property, so removing it leaves them as they are. *)
Record upload_data := UploadData {
  upload_products : list collected;
  upload_timestamp : string;
  total_products : nat;
  upload_type : string;
  upload_source : string;
  weights_included : bool
}.

(** [uploadProducts] up to the request: nothing is sent for an empty table
    or when the operator declines. *)
Definition uploadProducts (srv : service) (products : list collected)
    (confirmed : bool) (now : string) : option upload_data :=
  match products with
  | [] => None
  | _ =>
      if confirmed then
        let productsWithWeights := (enrich srv products []).1 in
        Some (UploadData productsWithWeights now (length productsWithWeights)
                         "manual_edit" "edit_interface" true)
      else None
  end.


(** ** Sample data *)

(** The row that [collectProductData] returns for a product added with
    [addNewProduct] and left as it is: it has no category. *)
Definition blank_row : collected :=
  Collected
    {| product_name := Some "New Product"%string;
       price := Some 0%Z;
       discounted_price := Some 0%Z;
       premium := Some false;
       availability := Some "in-stock"%string;
       description := Some ""%string;
       sizes := Arr [];
       colors := Arr [];
       material := Some ""%string;
       categories := Arr [];
       product_images := Some [];
       url := Some ""%string;
       source_url := Some ""%string;
       timestamp := Some "2025-01-01T00:00:00.000Z"%string;
       extraction_method := Some "manual_edit"%string |}
    0.


(** The same row with one category. *)
Definition row_in (category : string) : collected :=
  Collected (set_categories (Arr [category]) (row blank_row)) 0.

(** A service whose third lookup is rejected and that otherwise answers
    with a weight depending on how many lookups came before. *)
Definition third_fails : service :=
  λ sent _,
    if decide (length sent = 2) then fetch_rejects
    else json_body (WeightBody true (Some (100 + Z.of_nat (length sent))%Z) None).

(** The lookups made for the rows before row [j]. *)
Definition lookups_before (products : list collected) (j : nat)
  : list category_name :=
  filter (λ c, name_truthy c = true) (categoryName_of <$> take j products).

End Upload.

(* ===================================================================== *)
(** * The task monitor *)
(* ===================================================================== *)

Module Scraper.

(** ** Text typed by the operator *)

(** The value of the URL box is a JavaScript string: a sequence of UTF-16
    code units. *)
Abbreviation code_unit := N.
Abbreviation jsstring := (list N).

(** White space and line terminators, which [trim()] removes. *)
Definition is_white_space (c : code_unit) : bool :=
  ((9 <=? c) && (c <=? 13) || (c =? 32) || (c =? 160) || (c =? 5760) ||
   (8192 <=? c) && (c <=? 8202) || (c =? 8232) || (c =? 8233) ||
   (c =? 8239) || (c =? 8287) || (c =? 12288) || (c =? 65279))%N.

Fixpoint trimStart (s : jsstring) : jsstring :=
  match s with
  | c :: s' => if is_white_space c then trimStart s' else s
  | [] => []
  end.

Definition trim (s : jsstring) : jsstring :=
  reverse (trimStart (reverse (trimStart s))).

(** [s.split('\n')], with the piece under construction in [piece]. *)
Fixpoint split_from (piece s : jsstring) : list jsstring :=
  match s with
  | [] => [piece]
  | c :: s' =>
      if (c =? 10)%N then piece :: split_from [] s'
      else split_from (piece ++ [c]) s'
  end.

Definition split_newline (s : jsstring) : list jsstring := split_from [] s.

(** A string is truthy unless it is empty. *)
Definition truthy (s : jsstring) : bool :=
  match s with [] => false | _ => true end.

(** [urls.split('\n').filter(url => url.trim()).map(url => url.trim())] *)
Definition url_list (urls : jsstring) : list jsstring :=
  trim <$> filter (λ url, truthy (trim url) = true) (split_newline urls).

(** ** The controller *)

(** A [WebSocket] object; it was opened for the task id in its address. *)
Record socket := Socket { socket_task : option string }.

(** The fields of [FashionScraper] that drive a task. *)
Record scraper := Scraper {
  isScrapingActive : bool;
  currentTaskId : option string;
  websocket : option socket;
  reconnectAttempts : nat;
  maxReconnectAttempts : nat
}.

(** The state set up by the constructor. *)
Definition new_scraper : scraper := Scraper false None None 0 5.

(** Nothing is being scraped, no task is known, no connection is held. *)
Definition idle (st : scraper) : Prop :=
  isScrapingActive st = false ∧ currentTaskId st = None ∧ websocket st = None.

(** ** What the controller does to the outside *)

Inductive request :=
| get_active_tasks
| post_terminate_tasks (task_ids : list string) (reason : string)
| post_save_urls (urls : list jsstring)
| post_scrape_ai (urls : list jsstring) (max_pages_per_url : Z)
    (use_ai_pagination ai_extraction_mode : bool).

(** Why a submission failed: the [message] of the error that reaches the
    [catch]. *)
Inductive failure :=
| network_error
| save_urls_status (status : nat)
| http_error_status (status : nat)
| invalid_json
| server_error (error : option string)
| type_error.

(** The chat messages of [addMessage], by content. *)
Inductive message :=
| please_enter_url
| please_enter_valid_urls
| task_started (task_id : option string)
| failed_to_start (why : failure)
| terminating (count : nat)
| terminated_count (total_terminated : Z)
| some_may_still_run
| error_terminating
| connection_established.

Inductive message_type := m_system | m_success | m_error.

Inductive effect :=
| e_message (content : message) (type : message_type)
| e_request (r : request)
| e_socket_open (taskId : option string)
| e_socket_close
| e_timer (taskId : option string) (delay_ms : N)
| e_clear_results
| e_clear_chat.

(** What one [fetch] followed by [response.json()] can come to: the
    request is rejected, the response is not [ok], the body is not JSON,
    the body is [null] (reading a property of it raises), or the body is
    an object. *)
Inductive response (A : Type) :=
| fetch_rejects
| http_status (status : nat)
| json_rejects
| json_null
| json_body (a : A).

Arguments fetch_rejects {A}.
Arguments http_status {A}.
Arguments json_rejects {A}.
Arguments json_null {A}.
Arguments json_body {A}.

(** [resetScrapingState] *)
Definition resetScrapingState (st : scraper) : scraper * list effect :=
  (Scraper false None None (reconnectAttempts st) (maxReconnectAttempts st),
   match websocket st with
   | Some _ => [e_socket_close]
   | None => []
   end).

(** ** The connection *)

(** [connectWebSocket]: a new socket replaces the one held. *)
Definition connectWebSocket (taskId : option string) (st : scraper)
  : scraper * list effect :=
  (Scraper (isScrapingActive st) (currentTaskId st) (Some (Socket taskId))
           (reconnectAttempts st) (maxReconnectAttempts st),
   [e_socket_open taskId]).

(** The [onopen] handler. *)
Definition onopen (st : scraper) : scraper * list effect :=
  (Scraper (isScrapingActive st) (currentTaskId st) (websocket st)
           0 (maxReconnectAttempts st),
   [e_message connection_established m_success]).

(** The [onclose] handler of the socket opened for [taskId]: the counter
    is incremented first and the delay uses the new value. *)
Definition onclose (taskId : option string) (st : scraper)
  : scraper * list effect :=
  if isScrapingActive st && (reconnectAttempts st <? maxReconnectAttempts st)
  then
    let st' := Scraper (isScrapingActive st) (currentTaskId st) (websocket st)
                       (S (reconnectAttempts st)) (maxReconnectAttempts st) in
    (st', [e_timer taskId (2000 * N.of_nat (reconnectAttempts st'))%N])
  else (st, []).

(** The delays of the timers among some effects. *)
Definition delays (es : list effect) : list N :=
  omap (λ e, match e with e_timer _ d => Some d | _ => None end) es.

(** [n] closures in a row, none preceded by a successful open: after each
    closure the timer it has set, if any, fires and connects again, and
    that connection closes in turn. *)
Fixpoint closures (n : nat) (taskId : option string) (st : scraper)
  : scraper * list effect :=
  match n with
  | 0 => (st, [])
  | S n' =>
      let '(st1, es1) := onclose taskId st in
      let '(st2, es2) :=
        match es1 with
        | [] => (st1, [])
        | _ => connectWebSocket taskId st1
        end in
      let '(st3, es3) := closures n' taskId st2 in
      (st3, es1 ++ es2 ++ es3)
  end.

(** ** Submission *)

(** The answer of the scrape endpoint: [success], [data.task_id] when
    [data] is there ([None]: no [data], so that reading [task_id] raises;
    [Some None]: no [task_id] in it), and [error]. *)
Record scrape_body := ScrapeBody {
  success : bool;
  data : option (option string);
  error : option string
}.

(** The [catch] of [startScraping]: report, then [resetScrapingState]. *)
Definition submission_failed (why : failure) (st : scraper)
  : scraper * list effect :=
  let '(st', es) := resetScrapingState st in
  (st', e_message (failed_to_start why) m_error :: es).

(** [monitorProgress] builds the progress panel and connects. *)
Definition monitorProgress (st : scraper) : scraper * list effect :=
  connectWebSocket (currentTaskId st) st.

(** [startScraping].  [urlInput] is the value of the URL box,
    [maxPagesValue] the result of [parseInt] on the pages box ([None] for
    [NaN]); [save] and [scrape] are what the two endpoints answer if they
    are asked. *)
Definition startScraping (urlInput : jsstring) (maxPagesValue : option Z)
    (aiPagination aiExtraction : bool)
    (save : response unit) (scrape : response scrape_body) (st : scraper)
  : scraper * list effect :=
  let urls := trim urlInput in
  if negb (truthy urls) then (st, [e_message please_enter_url m_error])
  else
    let urlList := url_list urls in
    match urlList with
    | [] => (st, [e_message please_enter_valid_urls m_error])
    | _ :: _ =>
        let maxPages :=
          match maxPagesValue with
          | Some n => if (n =? 0)%Z then 50%Z else n
          | None => 50%Z
          end in
        let st1 := Scraper true (currentTaskId st) (websocket st)
                           (reconnectAttempts st) (maxReconnectAttempts st) in
        let begun := [e_clear_results; e_request (post_save_urls urlList)] in
        let asked :=
          begun ++ [e_request (post_scrape_ai urlList maxPages
                                              aiPagination aiExtraction)] in
        let failed (sofar : list effect) (why : failure) :=
          let '(st2, es) := submission_failed why st1 in (st2, sofar ++ es) in
        match save with
        | fetch_rejects => failed begun network_error
        | http_status status => failed begun (save_urls_status status)
        | json_rejects => failed begun invalid_json
        | json_null | json_body _ =>
            match scrape with
            | fetch_rejects => failed asked network_error
            | http_status status => failed asked (http_error_status status)
            | json_rejects => failed asked invalid_json
            | json_null => failed asked type_error
            | json_body result =>
                if success result then
                  match data result with
                  | Some task_id =>
                      let st2 := Scraper true task_id (websocket st1)
                                         (reconnectAttempts st1)
                                         (maxReconnectAttempts st1) in
                      let '(st3, es) := monitorProgress st2 in
                      (st3, asked ++
                            e_message (task_started task_id) m_success :: es)
                  | None => failed asked type_error
                  end
                else failed asked (server_error (error result))
            end
        end
    end.

(** The ways in which the two endpoints can make a submission fail. *)
Definition submission_fails (save : response unit)
    (scrape : response scrape_body) : Prop :=
  match save with
  | json_null | json_body _ =>
      match scrape with
      | json_body result => success result = false ∨ data result = None
      | _ => True
      end
  | _ => True
  end.

(** ** Clearing *)

(** One entry of the listing of active tasks. *)
Record task := Task {
  task_id : string;
  scraper_type : string;
  status : string
}.

Record listing := Listing { active_tasks : option (list task) }.

Record termination := Termination {
  total_terminated : option Z;
  failed_terminations : option (list string)
}.

(** [terminateActiveTasks]: list the active tasks and ask for all of them
    to be terminated; every error is caught and reported.  [terminate] is
    what the endpoint answers to a request for the given ids. *)
Definition terminateActiveTasks (active : response listing)
    (terminate : list string → response termination) : list effect :=
  e_request get_active_tasks ::
  match active with
  | fetch_rejects => [e_message error_terminating m_error]
  | http_status _ => []
  | json_rejects => [e_message error_terminating m_error]
  | json_null => [e_message error_terminating m_error]
  | json_body activeTasksData =>
      match default [] (active_tasks activeTasksData) with
      | [] => []
      | activeTasks =>
          let taskIds := task_id <$> activeTasks in
          e_message (terminating (length taskIds)) m_system ::
          e_request (post_terminate_tasks taskIds "User clicked Clear button") ::
          match terminate taskIds with
          | fetch_rejects => [e_message error_terminating m_error]
          | http_status _ => [e_message some_may_still_run m_error]
          | json_rejects => [e_message error_terminating m_error]
          | json_null => [e_message error_terminating m_error]
          | json_body terminateData =>
              match total_terminated terminateData with
              | Some n =>
                  if (0 <? n)%Z
                  then [e_message (terminated_count n) m_success]
                  else []
              | None => []
              end ++
              match failed_terminations terminateData with
              | Some _ => []
              | None => [e_message error_terminating m_error]
              end
          end
      end
  end.

(** [clearAll] *)
Definition clearAll (active : response listing)
    (terminate : list string → response termination) (st : scraper)
  : scraper * list effect :=
  let es1 := terminateActiveTasks active terminate in
  let '(st', es2) := resetScrapingState st in
  (st', es1 ++ e_clear_chat :: es2).

(** ** The progress log *)

Record stats := Stats {
  products_found : option Z;
  pages_analyzed : option Z
}.

(** A child of the [progressLog] element. *)
Record log_entry := LogEntry {
  className : string;
  innerHTML : string
}.

(** A word between double quotes. *)
Definition quoted (word : string) : string :=
  let q := String (Ascii.ascii_of_nat 34) EmptyString in
  q +:+ word +:+ q.

Definition includes (pattern text : string) : bool :=
  match String.index 0 pattern text with
  | Some _ => true
  | None => false
  end.

(** [x > 0] and [x || 0] on a property that may be undefined. *)
Definition is_positive (x : option Z) : bool :=
  match x with Some n => (0 <? n)%Z | None => false end.

Definition or_zero (x : option Z) : Z := default 0%Z x.

(** The element built by [addLogEntry]. *)
Definition logEntry (stage : option string) (details : string)
    (stats : option stats) (timestamp : string) : log_entry :=
  let entryClass :=
    if includes "✅" details || includes "Success" details
       || includes "complete" details
    then "log-entry success"
    else if includes "❌" details || includes "Failed" details
            || includes "Error" details
    then "log-entry error"
    else if bool_decide (stage = Some "ai_analysis"%string)
    then "log-entry ai-analysis"
    else if bool_decide (stage = Some "extraction"%string)
    then "log-entry extraction"
    else "log-entry" in
  let statsText :=
    match stats with
    | Some s =>
        if is_positive (products_found s) || is_positive (pages_analyzed s)
        then " [Products: " +:+ pretty (or_zero (products_found s)) +:+
             ", Pages: " +:+ pretty (or_zero (pages_analyzed s)) +:+ "]"
        else ""
    | None => ""
    end in
  LogEntry entryClass
    ("<span class=" +:+ quoted "timestamp" +:+ ">[" +:+ timestamp
     +:+ "]</span> " +:+ details +:+ statsText).

(** A child node of the [progressLog] element: an entry, or the text
    that the markup of the panel leaves between the tags. *)
Inductive node :=
| text_node (data : string)
| element (entry : log_entry).

(** [progressLog.children]: the element children only. *)
Definition children (childNodes : list node) : list log_entry :=
  omap (λ n, match n with element e => Some e | text_node _ => None end)
       childNodes.

(** [appendChild(logEntry)], then
    [if (progressLog.children.length > 50) removeChild(progressLog.firstChild)]:
    the test counts elements, the removal takes the first node of any
    kind. *)
Definition append_capped (entry : log_entry) (childNodes : list node)
  : list node :=
  let childNodes := childNodes ++ [element entry] in
  if 50 <? length (children childNodes) then tail childNodes else childNodes.

(** [addLogEntry]; [progressLog] is the list of child nodes of the log
    element, [None] when the element is not in the page. *)
Definition addLogEntry (stage : option string) (details : string)
    (stats : option stats) (timestamp : string)
    (progressLog : option (list node)) : option (list node) :=
  match progressLog with
  | None => None
  | Some childNodes =>
      Some (append_capped (logEntry stage details stats timestamp) childNodes)
  end.

(** One progress update as it reaches [addLogEntry]. *)
Record update := Update {
  u_stage : option string;
  u_details : string;
  u_stats : option stats;
  u_time : string
}.

Definition entry_of (u : update) : log_entry :=
  logEntry (u_stage u) (u_details u) (u_stats u) (u_time u).

Definition add_all (us : list update) (progressLog : option (list node))
  : option (list node) :=
  foldl (λ log u, addLogEntry (u_stage u) (u_details u) (u_stats u) (u_time u) log)
        progressLog us.

(** The log element as the markup of [monitorProgress] creates it: a line
    break and indentation, the opening entry, a line break and
    indentation. *)
Definition line_break (indent : nat) : string :=
  String (Ascii.ascii_of_nat 10) (String.concat "" (replicate indent " "%string)).

Definition initial_log : list node :=
  [ text_node (line_break 28);
    element (LogEntry "log-entry" "🚀 AI scraping session started...");
    text_node (line_break 24) ].

(** The socket openings among some effects. *)
Definition openings (es : list effect) : list (option string) :=
  omap (λ e, match e with e_socket_open t => Some t | _ => None end) es.

(** The requests among some effects. *)
Definition requests (es : list effect) : list request :=
  omap (λ e, match e with e_request r => Some r | _ => None end) es.

(** ** Sample data *)

(** Sixty progress updates, numbered in their details. *)
Definition sixty_updates : list update :=
  (λ n, Update (Some "extraction"%string) ("Page " +:+ pretty n) None "10:00:00")
    <$> seq 0 60.

(** A URL box holding blanks and line breaks only, and one holding
    [a.io]. *)
Definition blank_input : jsstring := [32; 32; 10; 9; 160; 10; 32]%N.
Definition one_url_input : jsstring := [32; 97; 46; 105; 111; 10]%N.

(** Two active tasks, and an endpoint that cannot terminate the second. *)
Definition two_tasks : listing :=
  Listing (Some [Task "t1" "fashion" "running"; Task "t2" "fashion" "running"]).

Definition second_fails : list string → response termination :=
  λ _, json_body (Termination (Some 1%Z) (Some ["t2"%string])).

(** A controller that is monitoring a task over a fresh connection. *)
Definition monitoring (taskId : string) : scraper :=
  Scraper true (Some taskId) (Some (Socket (Some taskId))) 0 5.

End Scraper.

(* ===================================================================== *)
(** * The task monitor: frames, button, events *)
(* ===================================================================== *)

Module Monitor.
Import Scraper.

(** [updateScrapeButton]: the value of [scrapeBtn.disabled]. *)
Definition updateScrapeButton (urlInput : jsstring) (st : scraper) : bool :=
  let hasUrls := 0 <? length (trim urlInput) in
  negb hasUrls || isScrapingActive st.

(** The text nodes among the child nodes of the log. *)
Definition text_nodes (childNodes : list node) : nat :=
  length childNodes - length (children childNodes).

(** ** Frames of the progress channel *)

Record progress_data := ProgressData {
  p_stage : option string;
  p_percentage : option Z;
  p_details : option string;
  p_stats : option stats
}.

(** The [data] of a [task_terminated] frame. *)
Record termination_data := TerminationData {
  t_reason : option string;
  t_task_id : option string
}.

(** ** The products of a result *)

(** A property of a product as [createProductCard] tests it: falsy
    (missing, [null], the empty string, 0), a string that is not empty,
    an array, or another truthy value, one without [length] (a number,
    [true]). *)
Inductive card_value := cv_falsy | cv_string | cv_array | cv_other.

(** What [createProductCard] calls methods on: the other properties it
    only tests, compares or writes into the text of the card. *)
Record card_product := CardProduct {
  cp_description : card_value;
  cp_sizes : card_value;
  cp_colors : card_value
}.

(** Whether [createProductCard] raises.  It reads [price] of the product,
    which a [null] among the products ([None]) has not; it calls
    [replace] on a truthy description, which only a string has; and for
    sizes or colours that are truthy and have a positive [length] it calls
    [slice(...)] and [map] on the result, which for a string is a string
    and has no [map]. *)
Definition createProductCard_raises (product : option card_product) : bool :=
  match product with
  | None => true
  | Some p =>
      match cp_description p with
      | cv_array | cv_other => true
      | cv_falsy | cv_string => false
      end
      || match cp_sizes p with cv_string => true | _ => false end
      || match cp_colors p with cv_string => true | _ => false end
  end.

(** The [products] of a result: missing or otherwise falsy, an array, or
    another truthy value, with its [length] if it has one. *)
Inductive result_products :=
| products_falsy
| products_array (products : list (option card_product))
| products_other (length : option nat).

(** [products?.length || 0], the number in the notification. *)
Definition found (products : result_products) : nat :=
  match products with
  | products_falsy => 0
  | products_array products => length products
  | products_other length => default 0 length
  end.

(** Whether [displayResults] raises on the products of a result.  With a
    [length] of 0 it shows a notice and returns; otherwise it calls [map]
    on the products, which only an array has, and [createProductCard] on
    each of them. *)
Definition displayResults_raises (products : result_products) : bool :=
  match products with
  | products_falsy => false
  | products_array products => existsb createProductCard_raises products
  | products_other (Some 0) => false
  | products_other _ => true
  end.

(** What [event.data] can be once [JSON.parse] has run: no JSON, or JSON
    without properties ([null]), or an object with its [type] and, when
    present, its [data].  For [task_completed] the data holds the
    [products] of the [result] when there is a [result]; for
    [task_failed] it holds [error]; for [status_update] it holds
    [current_progress]. *)
Inductive frame :=
| unparsable
| progress_update (data : option progress_data)
| task_completed (data : option (option result_products))
| task_failed (data : option (option string))
| task_terminated (data : option termination_data)
| status_update (data : option (option progress_data))
| other_type (type : option string).

(** What handling a frame does besides changing the controller. *)
Inductive reaction :=
| r_updateProgress (data : progress_data)
| r_notify_completed (found : nat)
| r_notify_failed (error : string)
| r_chat_failed (error : string)
| r_chat_terminated (reason task_id : option string)
| r_completion_timer (result : option result_products) (delay_ms : N)
| r_stats
| r_no_products
| r_displayResults (cards : nat)
| r_effect (e : effect).

Definition reset_reactions (st : scraper) : scraper * list reaction :=
  let '(st', es) := resetScrapingState st in (st', r_effect <$> es).

(** [onmessage] with [handleWebSocketMessage] and the handlers it
    dispatches to.  A handler that reads a property of a missing [data]
    raises; [onmessage] catches that like a parse error, and the handler
    has done nothing by then. *)
Definition onmessage (f : frame) (st : scraper) : scraper * list reaction :=
  match f with
  | unparsable => (st, [])
  | progress_update (Some data) => (st, [r_updateProgress data])
  | progress_update None => (st, [])
  | task_completed (Some result) =>
      (st, [r_notify_completed (default 0 (found <$> result));
            r_completion_timer result 1000])
  | task_completed None => (st, [])
  | task_failed (Some error) =>
      let text := match error with
                  | Some e => if Editor.truthy e then e else "Unknown error"
                  | None => "Unknown error"
                  end%string in
      let '(st', rs) := reset_reactions st in
      (st', r_notify_failed text :: r_chat_failed text :: rs)
  | task_failed None => (st, [])
  | task_terminated (Some data) =>
      let '(st', rs) := reset_reactions st in
      (st', r_chat_terminated (t_reason data) (t_task_id data) :: rs)
  | task_terminated None => (st, [])
  | status_update (Some (Some progress)) => (st, [r_updateProgress progress])
  | status_update (Some None) => (st, [])
  | status_update None => (st, [])
  | other_type _ => (st, [])
  end.

(** The callback of the timer set by [handleTaskCompletion]:
    [displayResults(taskData.result)] and then [resetScrapingState()].
    Without a [result] the first call raises at once.  With one it shows
    the statistics and then, for no product, a notice ([r_no_products]),
    and otherwise the section of the product cards ([r_displayResults]);
    when the cards cannot be made the call raises with the statistics
    shown and no section.  After a raise [resetScrapingState] is not
    reached. *)
Definition completion_timer (result : option result_products) (st : scraper)
  : scraper * list reaction :=
  match result with
  | None => (st, [])
  | Some products =>
      if displayResults_raises products then (st, [r_stats])
      else
        let '(st', rs) := reset_reactions st in
        (st', r_stats ::
              match found products with
              | 0 => r_no_products
              | S _ => r_displayResults (found products)
              end :: rs)
  end.

(** ** Events *)

(** [startScraping] is asynchronous: it runs up to its first [await], and
    goes on when the answer is there, after whatever handlers the page has
    run in the meantime.  It writes to the controller before its first
    [await] and behind its last one, and nowhere in between. *)

(** Whether the URL box passes the two validations. *)
Definition submits (urlInput : jsstring) : bool :=
  truthy (trim urlInput) &&
  match url_list (trim urlInput) with [] => false | _ :: _ => true end.

(** [startScraping] up to its first [await]. *)
Definition startScraping_begins (urlInput : jsstring) (st : scraper) : scraper :=
  if submits urlInput
  then Scraper true (currentTaskId st) (websocket st)
               (reconnectAttempts st) (maxReconnectAttempts st)
  else st.

(** What the answers of the two endpoints come to: an error that reaches
    the [catch], or the [task_id] of the answer. *)
Inductive submission :=
| submission_rejected (why : failure)
| submission_accepted (task_id : option string).

Definition submission_of (save : response unit) (scrape : response scrape_body)
  : submission :=
  match save with
  | fetch_rejects => submission_rejected network_error
  | http_status status => submission_rejected (save_urls_status status)
  | json_rejects => submission_rejected invalid_json
  | json_null | json_body _ =>
      match scrape with
      | fetch_rejects => submission_rejected network_error
      | http_status status => submission_rejected (http_error_status status)
      | json_rejects => submission_rejected invalid_json
      | json_null => submission_rejected type_error
      | json_body result =>
          if success result then
            match data result with
            | Some task_id => submission_accepted task_id
            | None => submission_rejected type_error
            end
          else submission_rejected (server_error (error result))
      end
  end.

(** [startScraping] from the point where the outcome is known: the
    [catch], or the assignment of the task id followed by
    [monitorProgress].  It finds the controller as the handlers that ran
    in the meantime have left it. *)
Definition startScraping_ends (outcome : submission) (st : scraper) : scraper :=
  match outcome with
  | submission_rejected why => (submission_failed why st).1
  | submission_accepted task_id =>
      (monitorProgress
         (Scraper (isScrapingActive st) task_id (websocket st)
                  (reconnectAttempts st) (maxReconnectAttempts st))).1
  end.

(** Everything that writes to the controller, in pieces that run without
    interruption.  [clearAll] is asynchronous too, but it writes to the
    controller only behind its last [await], by [resetScrapingState]:
    [ev_clear] is that piece.  A run of the page is a list of these
    events; not every list is a run of the page (the end of a submission
    comes after its beginning, a closure after a connection), which an
    invariant of all lists does not mind. *)
Inductive event :=
| ev_startScraping_begins (urlInput : jsstring)
| ev_startScraping_ends (outcome : submission)
| ev_clear (active : response listing)
    (terminate : list string → response termination)
| ev_open
| ev_close (taskId : option string)
| ev_reconnect_timer (taskId : option string)
| ev_frame (f : frame)
| ev_completion_timer (result : option result_products).

Definition handle (e : event) (st : scraper) : scraper :=
  match e with
  | ev_startScraping_begins urlInput => startScraping_begins urlInput st
  | ev_startScraping_ends outcome => startScraping_ends outcome st
  | ev_clear active terminate => (clearAll active terminate st).1
  | ev_open => (onopen st).1
  | ev_close taskId => (onclose taskId st).1
  | ev_reconnect_timer taskId => (connectWebSocket taskId st).1
  | ev_frame f => (onmessage f st).1
  | ev_completion_timer result => (completion_timer result st).1
  end.

Definition run (events : list event) (st : scraper) : scraper :=
  foldl (λ s e, handle e s) st events.

(** A product as the scraper writes it, and one whose sizes came as a
    single string. *)
Definition drawable : option card_product :=
  Some (CardProduct cv_string cv_array cv_array).

Definition sizes_as_text : option card_product :=
  Some (CardProduct cv_string cv_string cv_array).

Definition two_drawable : result_products :=
  products_array [drawable; drawable].

Definition one_undrawable : result_products :=
  products_array [drawable; sizes_as_text].

End Monitor.

(* ===================================================================== *)
(** * The task monitor: sub-domain list and results page *)
(* ===================================================================== *)

Module Domains.
Import Scraper.

(** The fields of [FashionScraper] behind the list of sub-domains.
    [perPageSelect] is [Number(this.perPageSelect.value)], [None] when the
    element is not in the page; the options of the select are taken to be
    whole numbers, 0 (the number of an empty value) included. *)
Record domains := Domains {
  urls : list string;
  currentPage : nat;
  perPageSelect : option nat
}.

(** [Math.ceil(total / perPage)] for a positive [perPage]. *)
Definition totalPages (total perPage : nat) : nat :=
  (total + perPage - 1) / perPage.

(** [this.urls.slice(start, end)] for a page. *)
Definition pageItems (urls : list string) (page perPage : nat) : list string :=
  let start := (page - 1) * perPage in
  take perPage (drop start urls).

(** What [render] leaves in the page: the rows of the list (none: the
    notice that no sub-domain was found) and the page buttons, each with
    its number and whether it is marked active. *)
Record page_view := PageView {
  domainList : list string;
  pagination : list (nat * bool)
}.

Inductive rendering :=
| select_missing
| never_returns
| rendered (v : page_view).

(** [render].  With a page size of 0 the number of pages is [NaN] for an
    empty list, which makes no button, and [Infinity] otherwise, which
    keeps the loop over the buttons going for ever. *)
Definition render (d : domains) : rendering :=
  match perPageSelect d with
  | None => select_missing
  | Some perPage =>
      let total := length (urls d) in
      let items := pageItems (urls d) (currentPage d) perPage in
      match perPage with
      | 0 => if total =? 0 then rendered (PageView items []) else never_returns
      | S _ =>
          let pages := totalPages total perPage in
          rendered
            (PageView items
               (if 1 <? pages
                then (λ i, (i, bool_decide (i = currentPage d))) <$> seq 1 pages
                else []))
      end
  end.

(** The [change] listener of the page-size select, attached when the
    select exists. *)
Definition perPageChanged (value : nat) (d : domains) : domains :=
  match perPageSelect d with
  | Some _ => Domains (urls d) 1 (Some value)
  | None => d
  end.

(** The [click] listener of page button [i]; only the buttons made by the
    last [render] are there to be clicked. *)
Definition pageClicked (i : nat) (d : domains) : domains :=
  match render d with
  | rendered v =>
      if bool_decide (i ∈ (fst <$> pagination v))
      then Domains (urls d) i (perPageSelect d)
      else d
  | _ => d
  end.

(** [getDomainUrls], with the [base_url] it has requested, if any.  The
    answer holds [collections_with_products] when that is there. *)
Definition getDomainUrls (domainurlInput : jsstring)
    (answer : response (option (list string))) (d : domains)
  : domains * option jsstring :=
  let domainurl := trim domainurlInput in
  if negb (truthy domainurl) then (d, None)
  else
    match answer with
    | json_body collections =>
        (Domains (default [] collections) 1 (perPageSelect d), Some domainurl)
    | _ => (d, Some domainurl)
    end.

Inductive page_event :=
| pe_getDomainUrls (domainurlInput : jsstring)
    (answer : response (option (list string)))
| pe_perPageChanged (value : nat)
| pe_pageClicked (i : nat).

Definition page_handle (e : page_event) (d : domains) : domains :=
  match e with
  | pe_getDomainUrls input answer => (getDomainUrls input answer d).1
  | pe_perPageChanged value => perPageChanged value d
  | pe_pageClicked i => pageClicked i d
  end.

(** A [render] that does not return leaves the page unresponsive: no
    later event is handled. *)
Definition page_run (events : list page_event) (d : domains) : domains :=
  foldl (λ s e, match render s with
                | never_returns => s
                | _ => page_handle e s
                end) d events.

(** The state set up by the constructor, for a page-size select showing
    [perPage]. *)
Definition new_domains (perPage : option nat) : domains := Domains [] 1 perPage.

(** Where the events of the list can take the page number. *)
Definition page_in_range (d : domains) : Prop :=
  currentPage d = 1 ∨
  ∃ perPage, perPageSelect d = Some perPage ∧ 0 < perPage ∧
             1 ≤ currentPage d ≤ totalPages (length (urls d)) perPage.

End Domains.

Module Results.
Import Scraper.

(** ** Selection on the results page *)

(** [selectAllProducts] on the check-boxes of the product cards. *)
Definition selectAllProducts (checkboxes : list bool) : list bool :=
  match checkboxes with
  | [] => []
  | _ :: _ =>
      let allSelected := forallb id checkboxes in
      (λ _, negb allSelected) <$> checkboxes
  end.

(** What [handleProductSelection] shows: the count, whether the edit
    button is visible, which cards are highlighted, and whether the
    select-all button reads "Deselect All". *)
Record selection_view := SelectionView {
  selectedCount : nat;
  editUploadShown : bool;
  selectedCards : list bool;
  deselectAllLabel : bool
}.

Definition handleProductSelection (checkboxes : list bool) : selection_view :=
  let selectedCount := length (filter (λ cb, cb = true) checkboxes) in
  SelectionView selectedCount (0 <? selectedCount) checkboxes
    ((selectedCount =? length checkboxes) && (0 <? length checkboxes)).

(** A product card of the page: its [data-product-index] and whether its
    check-box is ticked. *)
Definition card : Type := nat * bool.

(** The cards that [displayResults] writes for a list of products. *)
Definition product_cards {A} (products : list A) : list card :=
  (λ index, (index, false)) <$> seq 0 (length products).

(** The indices of the ticked cards, in document order. *)
Definition selectedIndices (cards : list card) : list nat :=
  fst <$> filter (λ c : card, c.2 = true) cards.

(** [editSelectedProducts]: what goes to the staging area under
    [selectedProducts] ([None] in the list: an index without product,
    which [JSON.stringify] writes as [null]) and under [currentTaskId];
    nothing when no card is ticked. *)
Definition editSelectedProducts (cards : list card)
    (currentProducts : list Editor.json_product) (currentTaskId : option string)
  : option (list (option Editor.json_product) * option string) :=
  match selectedIndices cards with
  | [] => None
  | indices =>
      Some ((λ index, currentProducts !! index) <$> indices,
            match currentTaskId with
            | Some id => if Editor.truthy id then Some id else None
            | None => None
            end)
  end.

(** The items whose check-box is ticked, by position. *)
Fixpoint ticked {A} (checkboxes : list bool) (items : list A) : list A :=
  match checkboxes, items with
  | cb :: checkboxes', item :: items' =>
      if cb then item :: ticked checkboxes' items' else ticked checkboxes' items'
  | _, _ => []
  end.

(** ** The description on a product card *)

(** [description.replace(/<[^>]*>/g, '')].  Outside a tag a [<] opens
    one; inside, everything up to the next [>] belongs to it; a [<] that
    no [>] follows is no tag and stays, with what comes after it. *)
Fixpoint strip_from (pending : option jsstring) (s : jsstring) : jsstring :=
  match s with
  | [] => default [] pending
  | c :: s' =>
      match pending with
      | None =>
          if (c =? 60)%N then strip_from (Some [c]) s'
          else c :: strip_from None s'
      | Some p =>
          if (c =? 62)%N then strip_from None s'
          else strip_from (Some (p ++ [c])) s'
      end
  end.

Definition strip_tags (s : jsstring) : jsstring := strip_from None s.

(** The code units of a text of the script. *)
Definition units (text : string) : jsstring :=
  Ascii.N_of_ascii <$> String.list_ascii_of_string text.

(** The description shown by [createProductCard]; the ellipsis depends on
    the length of the description as it came. *)
Definition card_description (description : option jsstring) : jsstring :=
  match description with
  | Some d =>
      if truthy d
      then take 100 (strip_tags d) ++ (if 100 <? length d then units "..." else [])
      else units "No description available"
  | None => units "No description available"
  end.

(** A text in which no [<] is followed, anywhere later, by a [>]: the
    pattern of a tag matches nowhere in it. *)
Definition no_tag (s : jsstring) : Prop :=
  ∀ before after, s = before ++ 60%N :: after → 62%N ∉ after.

End Results.

(* ===================================================================== *)
(** * Properties of the product editor *)
(* ===================================================================== *)

Section EditorStore.
Import Editor.

Lemma image_refs_spec (ps : list product) (l : loc) :
  l ∈ image_refs ps ↔ ∃ p, p ∈ ps ∧ product_images p = Some l.
Proof. unfold image_refs. apply list_elem_of_omap. Qed.

Lemma stringify_parse (v : json_product) (h h' : store) (p : product) :
  parse v h = (p, h') →
  stringify h' p = v ∧ h ⊆ h' ∧
  (∀ l, product_images p = Some l → (l ∉ dom h) ∧ (l ∈ dom h')).
Proof.
  unfold parse, stringify. destruct v as [n pr dp pm av de sz co ma ca im u su ts em].
  destruct im as [imgs|]; simpl; intros [= <- <-]; simpl.
  - pose proof (is_fresh (dom h)) as Hfresh.
    rewrite lookup_insert_eq. split_and!; [done| |].
    + apply insert_subseteq. by apply not_elem_of_dom.
    + intros l [= <-]. split; [done|].
      rewrite dom_insert_L. apply elem_of_union_l. by apply elem_of_singleton.
  - split_and!; [done|done|]. intros l [=].
Qed.

(** The text of a product only depends on the array it refers to. *)
Lemma stringify_agree (h h' : store) (p : product) :
  (∀ l, product_images p = Some l → h' !! l = h !! l) →
  stringify h' p = stringify h p.
Proof.
  unfold stringify. intros H. destruct (product_images p) as [l|] eqn:E; simpl.
  - by rewrite (H l eq_refl).
  - done.
Qed.

Lemma stringify_all_agree (h h' : store) (ps : list product) :
  (∀ l, l ∈ image_refs ps → h' !! l = h !! l) →
  stringify h' <$> ps = stringify h <$> ps.
Proof.
  intros H. apply list_fmap_ext. intros i p Hp.
  apply stringify_agree. intros l Hl. apply H.
  apply image_refs_spec. exists p. split; [|done].
  by eapply list_elem_of_lookup_2.
Qed.

Lemma lookup_extend (h h' : store) (l : loc) :
  h ⊆ h' → l ∈ dom h → h' !! l = h !! l.
Proof.
  intros Hsub [x Hx]%elem_of_dom. rewrite Hx.
  by eapply lookup_weaken.
Qed.

Lemma parse_all_spec (vs : list json_product) :
  ∀ (h h' : store) (ps : list product),
    parse_all vs h = (ps, h') →
    stringify h' <$> ps = vs ∧ h ⊆ h' ∧
    (∀ l, l ∈ image_refs ps → (l ∉ dom h) ∧ (l ∈ dom h')).
Proof.
  induction vs as [|v vs IH]; intros h h' ps; simpl.
  - intros [= <- <-]. split_and!; [done|done|].
    intros l Hl. by apply elem_of_nil in Hl.
  - destruct (parse v h) as [p h1] eqn:Ep.
    destruct (parse_all vs h1) as [ps' h2] eqn:Eps.
    intros [= <- <-].
    destruct (stringify_parse _ _ _ _ Ep) as (Hp & Hsub1 & Hfresh1).
    destruct (IH _ _ _ Eps) as (Hps & Hsub2 & Hfresh2).
    split_and!.
    + rewrite fmap_cons, Hps. f_equal.
      rewrite <- Hp. apply stringify_agree.
      intros l Hl. apply lookup_extend; [done|]. by apply Hfresh1.
    + by etrans.
    + intros l [q [Hq Hl]]%image_refs_spec.
      apply elem_of_cons in Hq as [->|Hq].
      * destruct (Hfresh1 l Hl) as [Hn Hd]. split; [done|].
        eapply subseteq_dom in Hsub2. by apply Hsub2.
      * assert (l ∈ image_refs ps') as Hin
          by (apply image_refs_spec; eauto).
        destruct (Hfresh2 l Hin) as [Hn Hd]. split; [|done].
        eapply subseteq_dom in Hsub1. intros Hl'. by apply Hn, Hsub1.
Qed.

(** ** Edits leave the snapshot alone *)

Lemma frames_refl (st : editor) : frames st st.
Proof. split_and!; [done|done|done|]. intros l Hl. by left. Qed.

Lemma frames_separated (st st' : editor) :
  frames st st' → separated st →
  separated st' ∧ snapshot_value st' = snapshot_value st.
Proof.
  intros (Ho & Hd & Hw & Hr) [Hclosed Hsep].
  assert (∀ l, l ∈ image_refs (originalProducts st) →
               l ∉ image_refs (products st)) as Hsep'.
  { intros l Hl Hp. by apply (Hsep l Hp). }
  split; [split|].
  - rewrite Ho. intros l Hl. apply Hd. by apply Hclosed.
  - rewrite Ho. intros l Hl Hlo. destruct (Hr l Hl) as [Hp|Hn].
    + by apply (Hsep l Hp).
    + by apply Hn, Hclosed.
  - unfold snapshot_value. rewrite Ho. apply stringify_all_agree.
    intros l Hl. apply Hw; [by apply Hsep'|by apply Hclosed].
Qed.

Lemma image_refs_insert (ps : list product) (i : nat) (p p' : product) (l : loc) :
  ps !! i = Some p → product_images p' = product_images p →
  l ∈ image_refs (<[i := p']> ps) → l ∈ image_refs ps.
Proof.
  intros Hi Himg [q [Hq Hl]]%image_refs_spec. apply image_refs_spec.
  apply list_elem_of_lookup in Hq as [j Hj].
  apply list_lookup_insert_Some in Hj as [(-> & <- & _)|[_ Hj]].
  - exists p. split; [by eapply list_elem_of_lookup_2|]. by rewrite <- Himg.
  - exists q. split; [by eapply list_elem_of_lookup_2|done].
Qed.

Lemma image_refs_snoc (ps : list product) (p : product) (l : loc) :
  l ∈ image_refs (ps ++ [p]) →
  l ∈ image_refs ps ∨ product_images p = Some l.
Proof.
  intros [q [Hq Hl]]%image_refs_spec.
  apply elem_of_app in Hq as [Hq|Hq].
  - left. apply image_refs_spec. eauto.
  - apply list_elem_of_singleton in Hq as ->. by right.
Qed.

Lemma image_refs_delete (ps : list product) (i : nat) (l : loc) :
  l ∈ image_refs (delete i ps) → l ∈ image_refs ps.
Proof.
  intros [q [Hq Hl]]%image_refs_spec. apply image_refs_spec.
  exists q. split; [|done].
  eapply elem_of_sublist; [done|]. apply sublist_delete.
Qed.

Lemma image_refs_lookup (ps : list product) (i : nat) (p : product) (l : loc) :
  ps !! i = Some p → product_images p = Some l → l ∈ image_refs ps.
Proof.
  intros Hi Hl. apply image_refs_spec. exists p.
  split; [by eapply list_elem_of_lookup_2|done].
Qed.

Lemma assign_field_images (f : field) (value : list string) (p : product) :
  product_images (assign_field f value p) = product_images p.
Proof. by destruct f. Qed.

Lemma frames_markModified index st st' :
  frames st st' → frames st (markModified index st').
Proof. done. Qed.

Lemma frames_updateProductValue f value index st st' :
  updateProductValue f value index st = Some st' → frames st st'.
Proof.
  unfold updateProductValue. destruct (products st !! index) as [p|] eqn:Hp;
    simpl.
  - intros [= <-]. split_and!; simpl; [done|done|done|].
    intros l Hl. left. eapply image_refs_insert; [done| |done].
    apply assign_field_images.
  - destruct f; try done. intros [= <-].
    apply frames_markModified, frames_refl.
Qed.

Lemma frames_renderTable st st' : frames st st' → frames st (renderTable st').
Proof. done. Qed.

Lemma frames_selectOption f index value multiple st st' :
  selectOption f index value multiple st = Some st' → frames st st'.
Proof.
  unfold selectOption. destruct (getCurrentValues f index st) as [cv|]; simpl; [|done].
  match goal with |- context [updateProductValue f ?v index st] =>
    destruct (updateProductValue f v index st) as [st1|] eqn:E end;
    simpl; [|done].
  intros [= <-]. apply frames_markModified. by eapply frames_updateProductValue.
Qed.

Lemma frames_removeOption f index value st st' :
  removeOption f index value st = Some st' → frames st st'.
Proof.
  unfold removeOption. destruct (getCurrentValues f index st) as [cv|]; simpl; [|done].
  match goal with |- context [updateProductValue f ?v index st] =>
    destruct (updateProductValue f v index st) as [st1|] eqn:E end;
    simpl; [|done].
  intros [= <-]. apply frames_markModified. by eapply frames_updateProductValue.
Qed.

(** Writing through the reference of a row. *)
Lemma frames_write (g : list string → list string) st (l : loc) p i :
  products st !! i = Some p → product_images p = Some l →
  frames st (Editor (products st) (originalProducts st) (modifiedRows st)
                    (alter g l (arrays st)) (selected st)).
Proof.
  intros Hp Hl. split_and!; simpl.
  - done.
  - by rewrite dom_alter_L.
  - intros l' Hl' _. apply lookup_alter_ne. intros ->.
    apply Hl'. by eapply image_refs_lookup.
  - intros l' Hl'. by left.
Qed.

Lemma frames_removeImageFromModal productIndex imageIndex st st' :
  removeImageFromModal productIndex imageIndex st = Some st' → frames st st'.
Proof.
  unfold removeImageFromModal.
  destruct (products st !! productIndex) as [p|] eqn:Hp; simpl; [|done].
  destruct (product_images p) as [l|] eqn:Hl; simpl; [|done].
  intros [= <-]. apply frames_markModified. by eapply frames_write.
Qed.

Lemma frames_removeImage productIndex imageIndex confirmed st st' :
  removeImage productIndex imageIndex confirmed st = Some st' → frames st st'.
Proof.
  unfold removeImage. destruct confirmed.
  - destruct (removeImageFromModal productIndex imageIndex st) as [st1|] eqn:E;
      simpl; [|done].
    intros [= <-]. apply frames_renderTable. by eapply frames_removeImageFromModal.
  - intros [= <-]. apply frames_refl.
Qed.

Lemma frames_addImage productIndex trimmedUrl valid st st' :
  addImage productIndex trimmedUrl valid st = Some st' → frames st st'.
Proof.
  unfold addImage. destruct trimmedUrl as [u|]; [destruct valid|].
  - destruct (products st !! productIndex) as [p|] eqn:Hp; simpl; [|done].
    destruct (product_images p) as [l|] eqn:Hl; simpl; [|done].
    intros [= <-]. apply frames_renderTable, frames_markModified.
    by eapply frames_write.
  - intros [= <-]. apply frames_refl.
  - intros [= <-]. apply frames_refl.
Qed.

Lemma frames_duplicateRow index st : frames st (duplicateRow index st).
Proof.
  unfold duplicateRow. split_and!; simpl; [done|done|done|].
  intros l [Hl|Hl]%image_refs_snoc; [by left|]. left.
  simpl in Hl. destruct (products st !! index) as [p|] eqn:Hp; simpl in Hl.
  - by eapply image_refs_lookup.
  - done.
Qed.

Lemma frames_deleteRow index confirmed st : frames st (deleteRow index confirmed st).
Proof.
  unfold deleteRow. destruct confirmed; [|apply frames_refl].
  split_and!; simpl; [done|done|done|].
  intros l Hl. left. by eapply image_refs_delete.
Qed.

Lemma frames_addNewProduct now st : frames st (addNewProduct now st).
Proof.
  unfold addNewProduct. pose proof (is_fresh (dom (arrays st))) as Hfresh.
  split_and!; simpl.
  - done.
  - rewrite dom_insert_L. apply union_subseteq_r.
  - intros l _ Hl. apply lookup_insert_ne. intros E. apply Hfresh. by rewrite E.
  - intros l [Hl|Hl]%image_refs_snoc; [by left|]. right.
    simpl in Hl. by injection Hl as <-.
Qed.

Lemma frames_resetChanges confirmed st : frames st (resetChanges confirmed st).
Proof.
  unfold resetChanges, deep_copy. destruct confirmed; [|apply frames_refl].
  destruct (parse_all _ _) as [ps h] eqn:E.
  destruct (parse_all_spec _ _ _ _ E) as (_ & Hsub & Hfresh).
  split_and!; simpl.
  - done.
  - by apply subseteq_dom.
  - intros l _ Hl. by apply lookup_extend.
  - intros l Hl. right. by apply Hfresh.
Qed.

Lemma frames_perform (a : action) (st : editor) : frames st (perform a st).
Proof.
  destruct a; simpl.
  - apply frames_markModified, frames_refl.
  - unfold toggleRowCheckbox. split_and!; simpl; [done|done|done|].
    intros l Hl. by left.
  - destruct (selectOption _ _ _ _ _) eqn:E; simpl;
      [by eapply frames_selectOption|apply frames_refl].
  - destruct (removeOption _ _ _ _) eqn:E; simpl;
      [by eapply frames_removeOption|apply frames_refl].
  - destruct (removeImage _ _ _ _) eqn:E; simpl;
      [by eapply frames_removeImage|apply frames_refl].
  - destruct (removeImageFromModal _ _ _) eqn:E; simpl;
      [|apply frames_refl].
    apply frames_renderTable. by eapply frames_removeImageFromModal.
  - destruct (addImage _ _ _ _) eqn:E; simpl;
      [by eapply frames_addImage|apply frames_refl].
  - apply frames_duplicateRow.
  - apply frames_deleteRow.
  - apply frames_addNewProduct.
  - apply frames_resetChanges.
  - unfold saveChanges. split_and!; simpl; [done|done|done|].
    intros l Hl. by left.
Qed.

Lemma session_separated (acts : list action) :
  ∀ st, separated st →
    separated (session acts st) ∧
    snapshot_value (session acts st) = snapshot_value st.
Proof.
  unfold session. induction acts as [|a acts IH]; intros st Hst; simpl.
  - done.
  - destruct (frames_separated _ _ (frames_perform a st) Hst) as [Hsep Hsnap].
    destruct (IH _ Hsep) as [Hsep' Hsnap']. split; [done|].
    by rewrite Hsnap'.
Qed.

Lemma loadProducts_separated (stored : list json_product) :
  separated (loadProducts stored) ∧
  snapshot_value (loadProducts stored) = stored ∧
  working_value (loadProducts stored) = stored.
Proof.
  unfold loadProducts, deep_copy.
  destruct (parse_all stored ∅) as [ps h1] eqn:E1.
  destruct (parse_all (stringify h1 <$> ps) h1) as [os h2] eqn:E2.
  destruct (parse_all_spec _ _ _ _ E1) as (Hv1 & _ & Hf1).
  destruct (parse_all_spec _ _ _ _ E2) as (Hv2 & Hsub & Hf2).
  assert (stringify h2 <$> ps = stored) as Hw.
  { rewrite <- Hv1. apply stringify_all_agree.
    intros l Hl. apply lookup_extend; [done|]. by apply Hf1. }
  split_and!.
  - split; simpl.
    + intros l Hl. by apply Hf2.
    + intros l Hl Hlo. apply (Hf2 l) in Hlo as [Hn _].
      by apply Hn, Hf1.
  - unfold snapshot_value; simpl. by rewrite Hv2.
  - done.
Qed.

Lemma resetChanges_value (st : editor) :
  working_value (resetChanges true st) = snapshot_value st ∧
  modifiedRows (resetChanges true st) = ∅.
Proof.
  unfold resetChanges, deep_copy.
  destruct (parse_all _ _) as [ps h] eqn:E.
  destruct (parse_all_spec _ _ _ _ E) as (Hv & _ & _).
  by split.
Qed.

End EditorStore.

Section EditorFields.
Import Editor.






Lemma getCurrentValues_valid (f : field) (i : nat) (st : editor) :
  i < length (products st) → is_Some (getCurrentValues f i st).
Proof.
  intros [p Hp]%lookup_lt_is_Some. unfold getCurrentValues. rewrite Hp. by eexists.
Qed.

Lemma updateProductValue_readback f value i st :
  i < length (products st) →
  ∃ st1, updateProductValue f value i st = Some st1 ∧
         getCurrentValues f i st1 = Some (readback f value) ∧
         length (products st1) = length (products st).
Proof.
  intros Hi. destruct (lookup_lt_is_Some_2 _ _ Hi) as [p Hp].
  unfold updateProductValue. rewrite Hp. simpl. eexists. split; [done|].
  unfold getCurrentValues; simpl. rewrite list_lookup_insert_eq by done.
  rewrite length_insert. split; [|done]. simpl. f_equal.
  destruct f; simpl; try done.
  destruct value as [|v ?]; simpl; [done|]. done.
Qed.


Lemma current_material_shape i st l :
  getCurrentValues f_materials i st = Some l →
  l = [] ∨ ∃ m, l = [m] ∧ truthy m = true.
Proof.
  unfold getCurrentValues. destruct (products st !! i) as [p|]; simpl; [|done].
  destruct (material p) as [m|]; [|intros [= <-]; by left].
  destruct (truthy m) eqn:E; intros [= <-]; [right; eauto|by left].
Qed.



End EditorFields.

(* ===================================================================== *)
(** * The editor against its specification *)
(* ===================================================================== *)

Section EditorClaims.
Import Editor.

(** C1 (as amended).  Once confirmed, deleting a valid row [k] removes
    that row from the working sequence and removes [k] from the set of
    modified rows; smaller indices keep their status; the re-render
    leaves no row selected, so every selected index is valid. *)
Theorem deleteRow_removes_row (st : editor) (k : nat) :
  k < length (products st) →
  let st' := deleteRow k true st in
  products st' = delete k (products st) ∧
  S (length (products st')) = length (products st) ∧
  (k ∉ modifiedRows st') ∧
  (∀ j, j < k → j ∈ modifiedRows st' ↔ j ∈ modifiedRows st) ∧
  selected st' = ∅ ∧
  (k ∉ selected st') ∧
  (∀ j, j ∈ selected st' → j < length (products st')).
Proof.
  intros Hk. simpl. split_and!.
  - done.
  - rewrite length_delete by (by apply lookup_lt_is_Some_2). lia.
  - apply not_elem_of_difference. right. by apply elem_of_singleton.
  - intros j Hj. rewrite elem_of_difference, elem_of_singleton. split.
    + by intros [? _].
    + intros ?. split; [done|lia].
  - done.
  - apply not_elem_of_empty.
  - intros j Hj. by apply not_elem_of_empty in Hj.
Qed.

Lemma deleteRow_removes_row_demo :
  let st' := deleteRow 0 true demo_edited in
  products st' = delete 0 (products demo_edited) ∧
  S (length (products st')) = length (products demo_edited) ∧
  (0 ∉ modifiedRows st') ∧
  (∀ j, j < 0 → j ∈ modifiedRows st' ↔ j ∈ modifiedRows demo_edited) ∧
  selected st' = ∅ ∧
  (0 ∉ selected st') ∧
  (∀ j, j ∈ selected st' → j < length (products st')).
Proof. apply (deleteRow_removes_row demo_edited 0). vm_compute. lia. Defined.

(** C1 as worded fails: with the second of two rows modified and
    selected, deleting the first row leaves index 1 in the set of
    modified rows although only one row remains. *)
Lemma deleteRow_keeps_stale_index :
  1 ∈ modifiedRows demo_edited ∧ 1 ∈ selected demo_edited ∧
  length (products (deleteRow 0 true demo_edited)) = 1 ∧
  1 ∈ modifiedRows (deleteRow 0 true demo_edited) ∧
  ¬ delete_rekeys 0 demo_edited (deleteRow 0 true demo_edited).
Proof.
  assert (1 ∈ modifiedRows (deleteRow 0 true demo_edited)) as Hstale
    by compute_done.
  split_and!.
  - compute_done.
  - compute_done.
  - reflexivity.
  - exact Hstale.
  - intros (_ & _ & _ & Hvalid & _).
    specialize (Hvalid 1 Hstale).
    change (length (products (deleteRow 0 true demo_edited))) with 1 in Hvalid.
    lia.
Qed.




(** C3.  Whatever the operator did since the products were loaded, a
    confirmed reset makes the working rows deep-equal to the snapshot
    taken at load time, which is the loaded data, and empties the set of
    modified rows. *)
Theorem reset_restores_snapshot (stored : list json_product) (acts : list action) :
  let st0 := loadProducts stored in
  let st := resetChanges true (session acts st0) in
  working_value st = snapshot_value st0 ∧
  snapshot_value st0 = stored ∧
  snapshot_value st = snapshot_value st0 ∧
  modifiedRows st = ∅.
Proof.
  cbv zeta. destruct (loadProducts_separated stored) as (Hsep & Hsnap & _).
  destruct (session_separated acts _ Hsep) as [Hsep' Hsnap'].
  destruct (resetChanges_value (session acts (loadProducts stored))) as [Hw Hm].
  destruct (frames_separated _ _
    (frames_resetChanges true (session acts (loadProducts stored))) Hsep')
    as [_ Hsnap''].
  split_and!.
  - by rewrite Hw, Hsnap'.
  - done.
  - by rewrite Hsnap'', Hsnap'.
  - done.
Qed.

(** C9.  For a valid row [i] whose images are an array, the duplicate is
    appended with the same reference to that array: removing the image
    at any position [j] through either row removes it from both.  The
    name of the copy carries the suffix, row [i] keeps its own, and a
    field written on the copy leaves row [i] as it was. *)
Theorem duplicateRow_shares_images (st : editor) (i : nat) (p : product)
    (l : loc) (imgs : list string) :
  products st !! i = Some p →
  product_images p = Some l →
  arrays st !! l = Some imgs →
  let n := length (products st) in
  let st1 := duplicateRow i st in
  products st1 =
    products st ++
      [set_product_name (Some (default ""%string (product_name p) +:+ " (Copy)")) p] ∧
  products st1 !! i = Some p ∧
  (product_images <$> products st1 !! n) = Some (Some l) ∧
  images_of n st1 = Some imgs ∧
  images_of i st1 = Some imgs ∧
  modifiedRows st1 = modifiedRows st ∧
  (∀ j, ∃ st2, removeImage n j true st1 = Some st2 ∧
               images_of i st2 = Some (delete j imgs) ∧
               images_of n st2 = Some (delete j imgs)) ∧
  (∀ j, ∃ st2, removeImage i j true st1 = Some st2 ∧
               images_of n st2 = Some (delete j imgs) ∧
               images_of i st2 = Some (delete j imgs)) ∧
  (∀ f value, ∃ st2, updateProductValue f value n st1 = Some st2 ∧
                     products st2 !! i = Some p ∧
                     images_of i st2 = Some imgs).
Proof.
  intros Hp Hl Himgs n st1.
  assert (i < n) as Hi by (by eapply lookup_lt_Some).
  assert (products st1 =
    products st ++
      [set_product_name (Some (default ""%string (product_name p) +:+ " (Copy)")) p])
    as Hps.
  { subst st1. unfold duplicateRow. simpl. by rewrite Hp. }
  assert (products st1 !! i = Some p) as Hrow.
  { rewrite Hps. by rewrite lookup_app_l. }
  assert (products st1 !! n =
    Some (set_product_name (Some (default ""%string (product_name p) +:+ " (Copy)")) p))
    as Hcopy.
  { rewrite Hps. rewrite lookup_app_r by done. subst n.
    by rewrite Nat.sub_diag. }
  assert (arrays st1 = arrays st) as Harr by done.
  assert (modifiedRows st1 = modifiedRows st) as Hmod by done.
  clearbody st1.
  assert (∀ a b j, products st1 !! a = Some b → product_images b = Some l →
            ∃ st2, removeImage a j true st1 = Some st2 ∧
                   products st2 = products st1 ∧
                   arrays st2 !! l = Some (delete j imgs)) as Hremove.
  { intros a b j Ha Hb. unfold removeImage, removeImageFromModal.
    rewrite Ha. simpl. rewrite Hb. simpl. eexists. split; [done|]. simpl.
    split; [done|]. by rewrite lookup_alter_eq, Harr, Himgs. }
  split_and!.
  - done.
  - done.
  - rewrite Hcopy. simpl. by rewrite Hl.
  - unfold images_of. rewrite Hcopy. simpl. rewrite Hl. simpl. by rewrite Harr.
  - unfold images_of. rewrite Hrow. simpl. rewrite Hl. simpl. by rewrite Harr.
  - done.
  - intros j. destruct (Hremove n _ j Hcopy Hl) as (st2 & Hr & Hps2 & Ha2).
    exists st2. unfold images_of. rewrite Hps2, Hrow, Hcopy. simpl.
    rewrite Hl. simpl. done.
  - intros j. destruct (Hremove i _ j Hrow Hl) as (st2 & Hr & Hps2 & Ha2).
    exists st2. unfold images_of. rewrite Hps2, Hrow, Hcopy. simpl.
    rewrite Hl. simpl. done.
  - intros f value. unfold updateProductValue. rewrite Hcopy. simpl.
    eexists. split; [done|]. unfold images_of. simpl.
    rewrite list_lookup_insert_ne by lia. rewrite Hrow. simpl.
    rewrite Hl. simpl. by rewrite Harr.
Qed.

Lemma duplicateRow_shares_images_demo :
  images_of 0 demo_pictures =
    Some ["https://cdn.shop/gown-front.jpg"; "https://cdn.shop/gown-back.jpg"]%string ∧
  (∃ st2, removeImage 2 0 true (duplicateRow 0 demo_pictures) = Some st2 ∧
          images_of 0 st2 = Some ["https://cdn.shop/gown-back.jpg"]%string ∧
          images_of 2 st2 = Some ["https://cdn.shop/gown-back.jpg"]%string).
Proof.
  split; [vm_compute; reflexivity|].
  edestruct (duplicateRow_shares_images demo_pictures 0)
    as (_ & _ & _ & _ & _ & _ & Hcopy & _ & _).
  - vm_compute. reflexivity.
  - vm_compute. reflexivity.
  - vm_compute. reflexivity.
  - exact (Hcopy 0).
Defined.

(** C10.  [addNewProduct] appends exactly one record with the stated
    defaults and an empty images array of its own; the rows that were
    there, every array that existed, and the set of modified rows are
    as before. *)
Theorem addNewProduct_appends_blank (now : string) (st : editor) :
  let n := length (products st) in
  let st' := addNewProduct now st in
  ∃ q,
    products st' = products st ++ [q] ∧
    length (products st') = S n ∧
    extraction_method q = Some "manual_add"%string ∧
    product_name q = Some "New Product"%string ∧
    price q = Some 0%Z ∧
    discounted_price q = Some 0%Z ∧
    availability q = Some "in-stock"%string ∧
    premium q = Some false ∧
    sizes q = Arr [] ∧
    colors q = Arr [] ∧
    material q = Some ""%string ∧
    categories q = Arr [] ∧
    images_of n st' = Some [] ∧
    (∀ i, i < n → products st' !! i = products st !! i) ∧
    (∀ l, l ∈ dom (arrays st) → arrays st' !! l = arrays st !! l) ∧
    modifiedRows st' = modifiedRows st ∧
    originalProducts st' = originalProducts st.
Proof.
  intros n st'. exists (newProduct (fresh (dom (arrays st))) now).
  pose proof (is_fresh (dom (arrays st))) as Hfresh.
  split_and!; try done.
  - subst st'. simpl. rewrite length_app. simpl. lia.
  - unfold images_of. subst st'. simpl.
    rewrite lookup_app_r by done. subst n. rewrite Nat.sub_diag. simpl.
    apply lookup_insert_eq.
  - intros i Hi. subst st'. simpl. by rewrite lookup_app_l.
  - intros l Hl. subst st'. simpl. apply lookup_insert_ne.
    intros E. apply Hfresh. by rewrite E.
Qed.

End EditorClaims.

(* ===================================================================== *)
(** * The weight lookups against their specification *)
(* ===================================================================== *)

Section UploadClaims.
Import Editor Upload.

(** Every failure of the lookup gives the weight [0]. *)
Lemma fetchProductWeight_failure (srv : service) (c : category_name)
    (sent : list category_name) :
  (∀ data, srv sent c ≠ json_body data) →
  fetchProductWeight srv c sent = (0%Z, sent ++ [c]).
Proof.
  intros H. unfold fetchProductWeight.
  destruct (srv sent c) as [| | | |data] eqn:E; try done.
  by destruct (H data).
Qed.

(** An answer of none of the three known shapes gives [0] too. *)
Lemma fetchProductWeight_unknown_shape (srv : service) (c : category_name)
    (sent : list category_name) (success : bool) (data : option (option Z)) :
  srv sent c = json_body (WeightBody success None data) →
  data = None ∨ data = Some None →
  fetchProductWeight srv c sent = (0%Z, sent ++ [c]).
Proof.
  intros E Hd. unfold fetchProductWeight. rewrite E. simpl.
  destruct success; destruct Hd as [-> | ->]; done.
Qed.

(** The batch keeps its rows and their order, whatever the lookups do. *)
Lemma enrich_rows (srv : service) (products : list collected) :
  ∀ sent, row <$> (enrich srv products sent).1 = row <$> products.
Proof.
  induction products as [|product rest IH]; intros sent; simpl; [done|].
  destruct (if name_truthy (categoryName_of product)
            then fetchProductWeight srv (categoryName_of product) sent
            else (0%Z, sent)) as [w sent1].
  specialize (IH sent1).
  destruct (enrich srv rest sent1) as [out sent2].
  cbn [fst] in *. rewrite !fmap_cons. by rewrite IH.
Qed.

(** The lookups go out one per row, in the order of the rows. *)
Lemma enrich_sent (srv : service) (products : list collected) :
  ∀ sent,
    (enrich srv products sent).2 =
    sent ++ filter (λ c, name_truthy c = true) (categoryName_of <$> products).
Proof.
  induction products as [|product rest IH]; intros sent.
  - simpl. by rewrite app_nil_r.
  - rewrite fmap_cons. cbn [enrich].
    destruct (name_truthy (categoryName_of product)) eqn:E.
    + rewrite filter_cons_True by done.
      unfold fetchProductWeight. specialize (IH (sent ++ [categoryName_of product])).
      destruct (enrich srv rest _) as [out sent2]. cbn [snd] in *.
      rewrite IH. by rewrite <- app_assoc.
    + rewrite filter_cons_False by (by rewrite E).
      specialize (IH sent).
      destruct (enrich srv rest sent) as [out sent2]. cbn [snd] in *.
      by rewrite IH.
Qed.

(** Five rows, the third lookup rejected: five rows come out in order,
    the third with weight [0], the others with the weights answered. *)
Lemma enrich_third_fails :
  let batch := [row_in "Dresses"; row_in "Women"; row_in "Formal";
                row_in "Shoes"; row_in "Bags"] in
  weight <$> (enrich third_fails batch []).1 = [100; 101; 0; 103; 104]%Z ∧
  row <$> (enrich third_fails batch []).1 = row <$> batch.
Proof. split; reflexivity. Qed.

Lemma enrich_length (srv : service) (products : list collected) :
  ∀ sent, length (enrich srv products sent).1 = length products.
Proof.
  intros sent. rewrite <- (length_fmap row), enrich_rows. apply length_fmap.
Qed.

Lemma enrich_weight (srv : service) (products : list collected) :
  ∀ sent j product,
    products !! j = Some product →
    weight <$> (enrich srv products sent).1 !! j =
      Some (if name_truthy (categoryName_of product)
            then (fetchProductWeight srv (categoryName_of product)
                    (sent ++ lookups_before products j)).1
            else 0%Z).
Proof.
  unfold lookups_before.
  induction products as [|first rest IH]; intros sent j product Hj; [done|].
  cbn [enrich].
  destruct (if name_truthy (categoryName_of first)
            then fetchProductWeight srv (categoryName_of first) sent
            else (0%Z, sent)) as [w sent1] eqn:Hfirst.
  specialize (IH sent1).
  destruct (enrich srv rest sent1) as [out sent2]. cbn [fst] in *.
  destruct j as [|j].
  - injection Hj as ->. rewrite app_nil_r.
    destruct (name_truthy (categoryName_of product));
      injection Hfirst as <- _; reflexivity.
  - simpl in Hj. etrans; [exact (IH j product Hj)|].
    do 2 f_equal. cbn [take fmap list_fmap].
    destruct (name_truthy (categoryName_of first)) eqn:Ht.
    + rewrite filter_cons_True by done.
      unfold fetchProductWeight in Hfirst. injection Hfirst as _ <-.
      by rewrite <- app_assoc.
    + rewrite filter_cons_False by (by rewrite Ht).
      by injection Hfirst as _ <-.
Qed.



End UploadClaims.

(* ===================================================================== *)
(** * The task monitor against its specification *)
(* ===================================================================== *)

Section ScraperClaims.
Import Scraper.

Lemma children_elements (log : list log_entry) : children (element <$> log) = log.
Proof.
  unfold children. induction log as [|e log IH]; [done|].
  simpl in *. by f_equal.
Qed.

Lemma append_capped_drop (entry : log_entry) (log : list log_entry) :
  length log ≤ 50 →
  append_capped entry (element <$> log) =
    element <$> drop (length log + 1 - 50) (log ++ [entry]) ∧
  length (drop (length log + 1 - 50) (log ++ [entry])) ≤ 50.
Proof.
  intros Hlen. unfold append_capped.
  replace ((element <$> log) ++ [element entry])
    with (element <$> (log ++ [entry])) by (by rewrite fmap_app).
  rewrite children_elements, length_app. simpl.
  assert (length (drop (length log + 1 - 50) (log ++ [entry])) ≤ 50) as Hcap.
  { rewrite length_drop, length_app. simpl. lia. }
  split; [|done].
  destruct (50 <? length log + 1) eqn:E.
  - apply Nat.ltb_lt in E. assert (length log = 50) as Hfull by lia.
    rewrite Hfull. simpl. by destruct log.
  - apply Nat.ltb_ge in E.
    by replace (length log + 1 - 50) with 0 by lia.
Qed.

Lemma add_all_drop (us : list update) :
  ∀ log, length log ≤ 50 →
    add_all us (Some (element <$> log)) =
      Some (element <$>
              drop (length log + length us - 50) (log ++ (entry_of <$> us))).
Proof.
  unfold add_all. induction us as [|u us IH]; intros log Hlen; simpl.
  - rewrite app_nil_r. by replace (length log + 0 - 50) with 0 by lia.
  - fold (entry_of u).
    destruct (append_capped_drop (entry_of u) log Hlen) as [Heq Hlen'].
    rewrite Heq, (IH _ Hlen'). do 2 f_equal.
    rewrite length_drop, length_app. simpl.
    set (k := length log + 1 - 50).
    rewrite <- (drop_app_le (log ++ [entry_of u]) (entry_of <$> us) k)
      by (rewrite length_app; simpl; lia).
    rewrite drop_drop. rewrite <- app_assoc. simpl.
    f_equal. lia.
Qed.

(** On a log that holds entries only, and at most fifty of them, the cap
    works as announced: below fifty an entry is just appended, at fifty
    the oldest entry, and only that one, goes, and sixty appends to an
    empty log leave the last fifty of them. *)
Lemma progress_log_of_entries (log : list log_entry) (entry : log_entry)
    (us : list update) :
  length log ≤ 50 →
  (length log < 50 →
     append_capped entry (element <$> log) = element <$> (log ++ [entry])) ∧
  (length log = 50 →
     append_capped entry (element <$> log) = element <$> (tail log ++ [entry])) ∧
  add_all us (Some (element <$> log)) =
    Some (element <$>
            drop (length log + length us - 50) (log ++ (entry_of <$> us))) ∧
  (length us = 60 →
     add_all us (Some []) = Some (element <$> (entry_of <$> drop 10 us))).
Proof.
  intros Hlen. destruct (append_capped_drop entry log Hlen) as [Heq Hlen'].
  split_and!.
  - intros Hlt. rewrite Heq. by replace (length log + 1 - 50) with 0 by lia.
  - intros Hfull. rewrite Heq, Hfull. simpl. by destruct log.
  - by apply add_all_drop.
  - intros Hus. change (@nil node) with (element <$> @nil log_entry).
    rewrite add_all_drop by (simpl; lia). simpl. rewrite Hus.
    simpl. do 2 f_equal. symmetry. apply fmap_drop.
Qed.

(** C4, at the failing input.  On the log as the progress panel creates
    it, sixty progress updates leave fifty-two entries, the last fifty-two
    of the updates: the first node of the log is the text before the
    opening entry, so the first removal, and later the third one, takes a
    text node and no entry. *)
Theorem progress_log_keeps_fifty_two (us : list update) :
  length us = 60 →
  children <$> add_all us (Some initial_log) = Some (entry_of <$> drop 8 us) ∧
  length (entry_of <$> drop 8 us) = 52.
Proof.
  intros Hus.
  do 60 (destruct us as [|? us]; [discriminate Hus|]).
  destruct us; [|discriminate Hus].
  split; reflexivity.
Qed.

Lemma progress_log_sixty :
  children <$> add_all sixty_updates (Some initial_log) =
    Some (entry_of <$> drop 8 sixty_updates) ∧
  length (entry_of <$> drop 8 sixty_updates) = 52.
Proof. apply (progress_log_keeps_fifty_two sixty_updates). reflexivity. Defined.

Lemma closures_spent (n : nat) (taskId : option string) (st : scraper) :
  maxReconnectAttempts st ≤ reconnectAttempts st →
  closures n taskId st = (st, []).
Proof.
  intros Hspent. induction n as [|n IH]; simpl; [done|].
  unfold onclose. apply Nat.ltb_ge in Hspent. rewrite Hspent, andb_false_r.
  by rewrite IH.
Qed.

Lemma closures_app (n m : nat) (taskId : option string) :
  ∀ st, closures (n + m) taskId st =
        let '(st1, es1) := closures n taskId st in
        let '(st2, es2) := closures m taskId st1 in
        (st2, es1 ++ es2).
Proof.
  induction n as [|n IH]; intros st; simpl.
  - by destruct (closures m taskId st).
  - destruct (onclose taskId st) as [st1 es1].
    destruct (match es1 with [] => _ | _ => _ end) as [st2 es2].
    rewrite IH. destruct (closures n taskId st2) as [st3 es3].
    destruct (closures m taskId st3) as [st4 es4].
    by rewrite !app_assoc.
Qed.

Lemma closures_five (taskId : option string) (t : option string)
    (w : option socket) :
  closures 5 taskId (Scraper true t w 0 5) =
    (Scraper true t (Some (Socket taskId)) 5 5,
     [e_timer taskId 2000; e_socket_open taskId;
      e_timer taskId 4000; e_socket_open taskId;
      e_timer taskId 6000; e_socket_open taskId;
      e_timer taskId 8000; e_socket_open taskId;
      e_timer taskId 10000; e_socket_open taskId]).
Proof. reflexivity. Qed.

(** C5.  With the limit of five set by the constructor: a closure while
    the task is active and fewer than five attempts were made increments
    the counter and sets a timer of 2000 ms times the new count; with
    five attempts made, or the task no longer active, nothing is set.
    From a count of zero, six or more closures in a row give five
    reconnections, after 2000, 4000, 6000, 8000 and 10000 ms, and then
    nothing more.  A successful open sets the counter to zero. *)
Theorem reconnect_linear_backoff (st : scraper) (taskId : option string) :
  maxReconnectAttempts st = 5 →
  (isScrapingActive st = true → reconnectAttempts st < 5 →
     onclose taskId st =
       (Scraper true (currentTaskId st) (websocket st)
                (S (reconnectAttempts st)) 5,
        [e_timer taskId (2000 * N.of_nat (S (reconnectAttempts st)))%N])) ∧
  (5 ≤ reconnectAttempts st → onclose taskId st = (st, [])) ∧
  (isScrapingActive st = false → onclose taskId st = (st, [])) ∧
  (isScrapingActive st = true → reconnectAttempts st = 0 →
     ∀ n, let '(st', es) := closures (6 + n) taskId st in
          delays es = [2000; 4000; 6000; 8000; 10000]%N ∧
          openings es = replicate 5 taskId ∧
          reconnectAttempts st' = 5 ∧
          onclose taskId st' = (st', [])) ∧
  reconnectAttempts (onopen st).1 = 0 ∧
  maxReconnectAttempts (onopen st).1 = 5.
Proof.
  intros Hmax. split_and!.
  - intros Hact Hlt. unfold onclose. rewrite Hact, Hmax.
    apply Nat.ltb_lt in Hlt. rewrite Hlt. simpl. by rewrite <- Hact.
  - intros Hge. unfold onclose. rewrite Hmax.
    apply Nat.ltb_ge in Hge. by rewrite Hge, andb_false_r.
  - intros Hact. unfold onclose. by rewrite Hact.
  - intros Hact Hzero n. destruct st as [a t w r m].
    cbn [isScrapingActive reconnectAttempts maxReconnectAttempts] in *. subst.
    change (6 + n) with (5 + S n). rewrite closures_app.
    rewrite closures_five. rewrite closures_spent by (simpl; lia).
    split_and!; reflexivity.
  - done.
  - done.
Qed.

Lemma reconnect_six_closures :
  let '(st', es) := closures 6 (Some "t1"%string) (monitoring "t1") in
  delays es = [2000; 4000; 6000; 8000; 10000]%N ∧
  openings es = replicate 5 (Some "t1"%string) ∧
  reconnectAttempts st' = 5 ∧
  onclose (Some "t1"%string) st' = (st', []).
Proof.
  destruct (reconnect_linear_backoff (monitoring "t1") (Some "t1"%string))
    as (_ & _ & _ & Hsix & _).
  - reflexivity.
  - apply (Hsix eq_refl eq_refl 0).
Defined.

Lemma resetScrapingState_idle (st : scraper) : idle (resetScrapingState st).1.
Proof. done. Qed.

Lemma url_list_of_nothing : url_list [] = [].
Proof. reflexivity. Qed.

(** The [catch] of a submission: idle, reported, nothing connected. *)
Local Ltac caught :=
  simpl; split_and!;
  [ done
  | eexists; repeat first [apply list_elem_of_here | apply list_elem_of_further]
  | by destruct (websocket _) ].

(** C7.  When no URL is left after trimming and splitting the input on
    line breaks, [startScraping] only shows an error message: the
    controller is as it was and nothing is requested or connected.  When
    a URL is left and saving the URLs or starting the task fails, the
    failure is reported and the controller ends up idle. *)
Theorem startScraping_validates_and_recovers (urlInput : jsstring)
    (maxPagesValue : option Z) (aiPagination aiExtraction : bool)
    (save : response unit) (scrape : response scrape_body) (st : scraper) :
  let out := startScraping urlInput maxPagesValue aiPagination aiExtraction
                           save scrape st in
  (url_list (trim urlInput) = [] →
     out.1 = st ∧
     (∃ m, out.2 = [e_message m m_error]) ∧
     requests out.2 = [] ∧ openings out.2 = []) ∧
  (url_list (trim urlInput) ≠ [] → submission_fails save scrape →
     idle out.1 ∧
     (∃ why, e_message (failed_to_start why) m_error ∈ out.2) ∧
     openings out.2 = []).
Proof.
  cbv zeta. unfold startScraping. split.
  - intros Hnone. destruct (truthy (trim urlInput)); simpl.
    + rewrite Hnone. split_and!; [done|by eexists|done|done].
    + split_and!; [done|by eexists|done|done].
  - intros Hsome Hfails. destruct (truthy (trim urlInput)) eqn:Htrim; simpl.
    + destruct (url_list (trim urlInput)) as [|u us]; [done|].
      unfold submission_fails in Hfails.
      destruct save as [| | | |saved];
        destruct scrape as [| | | |result]; try caught;
        (destruct Hfails as [Hf|Hf]; rewrite Hf; [caught|]);
        destruct (success result); caught.
    + destruct (trim urlInput); [|done]. by rewrite url_list_of_nothing in Hsome.
Qed.

Lemma startScraping_blank_and_offline :
  (startScraping blank_input (Some 3%Z) true true fetch_rejects fetch_rejects
                 (monitoring "t0")).1 = monitoring "t0" ∧
  idle (startScraping one_url_input (Some 3%Z) true true fetch_rejects
                      fetch_rejects new_scraper).1.
Proof.
  split.
  - apply (startScraping_validates_and_recovers blank_input (Some 3%Z) true true
             fetch_rejects fetch_rejects (monitoring "t0")).
    vm_compute. reflexivity.
  - apply (startScraping_validates_and_recovers one_url_input (Some 3%Z) true true
             fetch_rejects fetch_rejects new_scraper).
    + vm_compute. discriminate.
    + simpl. exact I.
Defined.

(** C8.  [clearAll] always ends with the client idle, whatever the
    listing and the termination answer or whether they fail.  When the
    listing answers with active tasks, exactly one termination is
    requested, for the ids of all of them in order, before the chat is
    cleared; when it lists none, nothing is asked to terminate. *)
Theorem clearAll_terminates_listed_then_idle (active : response listing)
    (terminate : list string → response termination) (st : scraper) :
  let out := clearAll active terminate st in
  idle out.1 ∧
  e_clear_chat ∈ out.2 ∧
  (is_Some (websocket st) → e_socket_close ∈ out.2) ∧
  (∀ activeTasksData t ts,
     active = json_body activeTasksData →
     active_tasks activeTasksData = Some (t :: ts) →
     requests out.2 =
       [get_active_tasks;
        post_terminate_tasks (task_id <$> t :: ts) "User clicked Clear button"]) ∧
  (∀ activeTasksData,
     active = json_body activeTasksData →
     default [] (active_tasks activeTasksData) = [] →
     requests out.2 = [get_active_tasks]).
Proof.
  cbv zeta. unfold clearAll. split_and!.
  - done.
  - unfold resetScrapingState. cbn [snd].
    apply elem_of_app. right. apply list_elem_of_here.
  - intros [w Hw]. unfold resetScrapingState. cbn [snd]. rewrite Hw.
    apply elem_of_app. right. apply list_elem_of_further, list_elem_of_here.
  - intros d t ts -> Hd. unfold terminateActiveTasks. rewrite Hd.
    cbn [default fst snd resetScrapingState].
    unfold requests. rewrite omap_app.
    assert (omap (λ e, match e with e_request r => Some r | _ => None end)
              (e_clear_chat :: match websocket st with
                               | Some _ => [e_socket_close]
                               | None => []
                               end) = []) as -> by (by destruct (websocket st)).
    rewrite app_nil_r. simpl.
    destruct (terminate _) as [| | | |td]; simpl; try done.
    destruct (total_terminated td) as [n|]; [destruct (0 <? n)%Z|];
      destruct (failed_terminations td); done.
  - intros d -> Hd. unfold terminateActiveTasks. rewrite Hd. simpl.
    by destruct (websocket st).
Qed.

Lemma clearAll_two_tasks :
  idle (clearAll (json_body two_tasks) second_fails (monitoring "t1")).1 ∧
  requests (clearAll (json_body two_tasks) second_fails (monitoring "t1")).2 =
    [get_active_tasks;
     post_terminate_tasks ["t1"; "t2"]%string "User clicked Clear button"].
Proof.
  destruct (clearAll_terminates_listed_then_idle (json_body two_tasks)
              second_fails (monitoring "t1")) as (Hidle & _ & _ & Hall & _).
  split; [exact Hidle|].
  exact (Hall two_tasks _ _ eq_refl eq_refl).
Defined.

End ScraperClaims.

(* ===================================================================== *)
(** * More on the product editor *)
(* ===================================================================== *)

Section EditorMore.
Import Editor.

Lemma session_original (acts : list action) :
  ∀ st, originalProducts (session acts st) = originalProducts st.
Proof.
  unfold session. induction acts as [|a acts IH]; intros st; simpl; [done|].
  rewrite IH. by destruct (frames_perform a st) as [-> _].
Qed.

(** Loading gives working rows and a snapshot that both deep-equal the
    stored data, row for row, with nothing marked modified or selected,
    and no array shared between the two. *)
Theorem loadProducts_round_trip (stored : list json_product) :
  let st := loadProducts stored in
  working_value st = stored ∧
  snapshot_value st = stored ∧
  length (products st) = length stored ∧
  length (originalProducts st) = length stored ∧
  modifiedRows st = ∅ ∧
  selected st = ∅ ∧
  (∀ l, l ∈ image_refs (products st) → l ∉ image_refs (originalProducts st)).
Proof.
  cbv zeta. destruct (loadProducts_separated stored) as ([_ Hsep] & Hsnap & Hwork).
  assert (modifiedRows (loadProducts stored) = ∅ ∧ selected (loadProducts stored) = ∅)
    as [Hm Hs].
  { unfold loadProducts, deep_copy. destruct (parse_all stored ∅) as [ps h1].
    by destruct (parse_all _ h1). }
  split_and!; try done.
  - rewrite <- Hwork at 2. unfold working_value. by rewrite length_fmap.
  - rewrite <- Hsnap at 2. unfold snapshot_value. by rewrite length_fmap.
Qed.

(** No sequence of edits, saves or resets touches the snapshot: after any
    session it is the same list of objects and still deep-equals the data
    that was loaded. *)
Theorem session_keeps_snapshot (stored : list json_product) (acts : list action) :
  let st0 := loadProducts stored in
  originalProducts (session acts st0) = originalProducts st0 ∧
  snapshot_value (session acts st0) = stored.
Proof.
  cbv zeta. destruct (loadProducts_separated stored) as (Hsep & Hsnap & _).
  destruct (session_separated acts _ Hsep) as [_ Hsame].
  split; [apply session_original|]. by rewrite Hsame.
Qed.

(** What [updateProductValue] does to a valid row. *)
Lemma updateProductValue_spec f value i st :
  i < length (products st) →
  ∃ st1 p,
    products st !! i = Some p ∧
    updateProductValue f value i st = Some st1 ∧
    products st1 = <[i := assign_field f value p]> (products st) ∧
    modifiedRows st1 = {[i]} ∪ modifiedRows st ∧
    arrays st1 = arrays st ∧
    selected st1 = selected st ∧
    getCurrentValues f i st1 = Some (readback f value).
Proof.
  intros Hi. destruct (lookup_lt_is_Some_2 _ _ Hi) as [p Hp].
  destruct (updateProductValue_readback f value i st Hi) as (st1 & Hu & Hg & _).
  exists st1, p. unfold updateProductValue in Hu. rewrite Hp in Hu.
  simpl in Hu. injection Hu as <-. split_and!; try done.
  unfold updateProductValue. by rewrite Hp.
Qed.

(** [removeOption] on a valid row takes the value out of the field, keeps
    the other values (for sizes, colours and categories: all of them, in
    order), marks the row modified and leaves the other rows alone. *)
Theorem removeOption_removes (f : field) (i : nat) (v : string) (st : editor) :
  i < length (products st) →
  ∃ l st1 l1,
    getCurrentValues f i st = Some l ∧
    removeOption f i v st = Some st1 ∧
    getCurrentValues f i st1 = Some l1 ∧
    (v ∉ l1) ∧
    (∀ x, x ∈ l1 → x ∈ l) ∧
    (f = f_sizes ∨ f = f_colors ∨ f = f_categories →
       l1 = filter (λ x, x ≠ v) l) ∧
    i ∈ modifiedRows st1 ∧
    length (products st1) = length (products st) ∧
    (∀ j, j ≠ i → products st1 !! j = products st !! j).
Proof.
  intros Hi. destruct (getCurrentValues_valid f i st Hi) as [l Hl].
  destruct (updateProductValue_spec f (filter (λ x, x ≠ v) l) i st Hi)
    as (st1 & p & Hp & Hu & Hps & Hmod & _ & _ & Hget).
  exists l, (markModified i st1), (readback f (filter (λ x, x ≠ v) l)).
  assert (v ∉ filter (λ x, x ≠ v) l) as Hgone.
  { intros [Hne _]%list_elem_of_filter. by apply Hne. }
  assert (∀ x, x ∈ filter (λ x, x ≠ v) l → x ∈ l) as Hsub.
  { by intros x [_ Hx]%list_elem_of_filter. }
  split_and!.
  - done.
  - unfold removeOption. rewrite Hl. simpl. by rewrite Hu.
  - unfold getCurrentValues in *. simpl. exact Hget.
  - destruct f; simpl; try done.
    + apply current_material_shape in Hl as [->|(m & -> & Hm)].
      * simpl. apply not_elem_of_nil.
      * destruct (decide (m = v)) as [->|Hne].
        -- rewrite filter_cons_False by (by intros []). simpl. apply not_elem_of_nil.
        -- rewrite filter_cons_True by done. simpl. rewrite Hm.
           by intros ->%list_elem_of_singleton.
    + apply not_elem_of_nil.
  - destruct f; simpl; try done.
    + apply current_material_shape in Hl as [->|(m & -> & Hm)].
      * simpl. by intros x ?%elem_of_nil.
      * destruct (decide (m = v)) as [->|Hne].
        -- rewrite filter_cons_False by (by intros []). simpl.
           by intros x ?%elem_of_nil.
        -- rewrite filter_cons_True by done. simpl. by rewrite Hm.
    + by intros x ?%elem_of_nil.
  - by intros [-> | [-> | ->]].
  - unfold markModified. cbn [modifiedRows].
    apply elem_of_union_l. by apply elem_of_singleton.
  - simpl. by rewrite Hps, length_insert.
  - intros j Hj. simpl. rewrite Hps. by apply list_lookup_insert_ne.
Qed.

Lemma removeOption_removes_demo :
  ∃ st1, removeOption f_sizes 0 "M" demo = Some st1 ∧
         getCurrentValues f_sizes 0 st1 = Some ["S"; "L"]%string.
Proof.
  destruct (removeOption_removes f_sizes 0 "M" demo)
    as (l & st1 & l1 & Hl & Hr & Hg & _ & _ & Hfilter & _).
  - vm_compute. lia.
  - exists st1. split; [exact Hr|]. rewrite Hg. f_equal.
    rewrite (Hfilter (or_introl eq_refl)).
    assert (l = ["S"; "M"; "L"]%string) as ->.
    { assert (Some l = Some ["S"; "M"; "L"]%string) as [= ->];
        [by rewrite <- Hl|done]. }
    reflexivity.
Defined.

(** Choosing a value through a single-select dropdown (as the material and
    category dropdowns are wired) replaces whatever the field held: sizes,
    colours or categories then hold exactly that value, the material holds
    it unless it is the empty string; choosing it again changes nothing. *)
Theorem selectOption_single_replaces (f : field) (i : nat) (v : string)
    (st : editor) :
  i < length (products st) →
  let chosen :=
    match f with
    | f_materials => if truthy v then [v] else []
    | f_other _ => []
    | _ => [v]
    end in
  ∃ st1 st2,
    selectOption f i v false st = Some st1 ∧
    getCurrentValues f i st1 = Some chosen ∧
    selectOption f i v false st1 = Some st2 ∧
    getCurrentValues f i st2 = Some chosen ∧
    products st2 = products st1 ∧
    i ∈ modifiedRows st1.
Proof.
  intros Hi chosen.
  assert (∀ st, i < length (products st) →
            ∃ st1 p, products st !! i = Some p ∧
              selectOption f i v false st = Some (markModified i st1) ∧
              products st1 = <[i := assign_field f [v] p]> (products st) ∧
              getCurrentValues f i st1 = Some chosen) as Hstep.
  { intros s Hs. destruct (getCurrentValues_valid f i s Hs) as [l Hl].
    destruct (updateProductValue_spec f [v] i s Hs)
      as (s1 & p & Hp & Hu & Hps & _ & _ & _ & Hget).
    exists s1, p. split_and!; try done.
    unfold selectOption. rewrite Hl. simpl. by rewrite Hu. }
  destruct (Hstep st Hi) as (st1 & p & Hp & Hs1 & Hps1 & Hg1).
  assert (i < length (products (markModified i st1))) as Hi1.
  { simpl. by rewrite Hps1, length_insert. }
  destruct (Hstep _ Hi1) as (st2 & p1 & Hp1 & Hs2 & Hps2 & Hg2).
  exists (markModified i st1), (markModified i st2).
  split_and!; try done.
  - simpl in *. rewrite Hps2. rewrite Hps1 in Hp1.
    rewrite list_lookup_insert_eq in Hp1 by done. injection Hp1 as <-.
    rewrite Hps1. apply list_eq. intros j.
    destruct (decide (i = j)) as [<-|Hne].
    + rewrite !list_lookup_insert_eq by (by rewrite ?length_insert).
      f_equal. by destruct f, p.
    + by rewrite !list_lookup_insert_ne by done.
  - unfold markModified. cbn [modifiedRows].
    apply elem_of_union_l. by apply elem_of_singleton.
Qed.

Lemma selectOption_single_replaces_demo :
  ∃ st1, selectOption f_categories 0 "Bridal" false demo = Some st1 ∧
         getCurrentValues f_categories 0 st1 = Some ["Bridal"%string].
Proof.
  destruct (selectOption_single_replaces f_categories 0 "Bridal" demo)
    as (st1 & st2 & H1 & H2 & _).
  - vm_compute. lia.
  - exists st1. by split.
Defined.

(** An accepted [addImage] puts the address at the end of the images of
    the row and marks it modified; removing the last image then gives the
    images back as they were.  A cancelled prompt or a rejected address
    changes nothing at all. *)
Theorem addImage_then_removeImage (st : editor) (i : nat) (p : product)
    (l : loc) (imgs : list string) (u : string) :
  products st !! i = Some p →
  product_images p = Some l →
  arrays st !! l = Some imgs →
  ∃ st1 st2,
    addImage i (Some u) true st = Some st1 ∧
    images_of i st1 = Some (imgs ++ [u]) ∧
    i ∈ modifiedRows st1 ∧
    removeImage i (length imgs) true st1 = Some st2 ∧
    images_of i st2 = Some imgs ∧
    products st2 = products st ∧
    addImage i None true st = Some st ∧
    addImage i (Some u) false st = Some st.
Proof.
  intros Hp Hl Himgs.
  eexists _, _. split_and!.
  - unfold addImage. rewrite Hp. simpl. rewrite Hl. simpl. reflexivity.
  - unfold renderTable, markModified, images_of. simpl. rewrite Hp. simpl.
    rewrite Hl. simpl. by rewrite lookup_alter_eq, Himgs.
  - simpl. apply elem_of_union_l. by apply elem_of_singleton.
  - unfold removeImage, removeImageFromModal. simpl. rewrite Hp. simpl.
    rewrite Hl. simpl. reflexivity.
  - unfold images_of. simpl. rewrite Hp. simpl. rewrite Hl. simpl.
    rewrite !lookup_alter_eq, Himgs. simpl. f_equal.
    rewrite (delete_middle imgs [] u). apply app_nil_r.
  - done.
  - done.
  - done.
Qed.

Lemma addImage_then_removeImage_demo :
  ∃ st1 st2,
    addImage 1 (Some "https://cdn.shop/lilac.jpg"%string) true demo = Some st1 ∧
    images_of 1 st1 = Some ["https://cdn.shop/lilac.jpg"%string] ∧
    removeImage 1 0 true st1 = Some st2 ∧
    images_of 1 st2 = Some [].
Proof.
  edestruct (addImage_then_removeImage demo 1) as (st1 & st2 & H1 & H2 & _ & H3 & H4 & _).
  - vm_compute. reflexivity.
  - vm_compute. reflexivity.
  - vm_compute. reflexivity.
  - exists st1, st2. split_and!; [exact H1|exact H2|exact H3|exact H4].
Defined.

Lemma delete_past_end {A} (l : list A) (k : nat) : length l ≤ k → delete k l = l.
Proof.
  intros Hk. rewrite delete_take_drop, take_ge by done.
  rewrite drop_ge by lia. apply app_nil_r.
Qed.

(** [removeImage] with an index past the end of the images removes nothing,
    yet the row is marked modified and the table is rendered again, which
    unticks every row; declined, it does nothing. *)
Theorem removeImage_past_end (st : editor) (i k : nat) (p : product)
    (l : loc) (imgs : list string) :
  products st !! i = Some p →
  product_images p = Some l →
  arrays st !! l = Some imgs →
  length imgs ≤ k →
  ∃ st1,
    removeImage i k true st = Some st1 ∧
    images_of i st1 = Some imgs ∧
    products st1 = products st ∧
    modifiedRows st1 = {[i]} ∪ modifiedRows st ∧
    selected st1 = ∅ ∧
    removeImage i k false st = Some st.
Proof.
  intros Hp Hl Himgs Hk. eexists. split_and!.
  - unfold removeImage, removeImageFromModal. rewrite Hp. simpl.
    rewrite Hl. simpl. reflexivity.
  - unfold images_of. simpl. rewrite Hp. simpl. rewrite Hl. simpl.
    rewrite lookup_alter_eq, Himgs. simpl. by rewrite delete_past_end.
  - done.
  - done.
  - done.
  - done.
Qed.

Lemma removeImage_past_end_demo :
  ∃ st1, removeImage 0 2 true demo_pictures = Some st1 ∧
         images_of 0 st1 = images_of 0 demo_pictures.
Proof.
  edestruct (removeImage_past_end demo_pictures 0 2) as (st1 & H1 & H2 & _).
  - vm_compute. reflexivity.
  - vm_compute. reflexivity.
  - vm_compute. reflexivity.
  - vm_compute. lia.
  - exists st1. split; [exact H1|]. rewrite H2. vm_compute. reflexivity.
Defined.

(** An image edit on one row changes no property of any product and no
    images but those read through the same array: rows holding another
    array, or none, show the images they showed. *)
Theorem image_edit_frame (st st1 : editor) (i k : nat) (p : product) (l : loc) :
  products st !! i = Some p →
  product_images p = Some l →
  removeImage i k true st = Some st1 →
  products st1 = products st ∧
  originalProducts st1 = originalProducts st ∧
  (∀ j q, products st !! j = Some q → product_images q ≠ Some l →
          images_of j st1 = images_of j st).
Proof.
  intros Hp Hl. unfold removeImage, removeImageFromModal. rewrite Hp. simpl.
  rewrite Hl. simpl. intros [= <-]. split_and!; [done|done|].
  intros j q Hq Hne. unfold images_of. simpl. rewrite Hq. simpl.
  destruct (product_images q) as [l'|]; simpl; [|done].
  apply lookup_alter_ne. by intros ->.
Qed.

Lemma image_edit_frame_demo :
  images_of 1 (default demo_pictures (removeImage 0 0 true demo_pictures)) =
  images_of 1 demo_pictures.
Proof.
  destruct (removeImage 0 0 true demo_pictures) as [st1|] eqn:E.
  - simpl.
    edestruct (image_edit_frame demo_pictures st1 0 0) as (_ & _ & Hframe);
      [vm_compute; reflexivity | vm_compute; reflexivity | exact E |].
    eapply (Hframe 1); [vm_compute; reflexivity | vm_compute; discriminate].
  - vm_compute in E. discriminate E.
Defined.

(** Duplicating any row, or adding a new product, and then deleting the
    last row gives back the rows there were; the snapshot and the arrays
    that existed are as before. *)
Theorem append_then_delete_last (st : editor) (i : nat) (now : string) :
  let n := length (products st) in
  products (deleteRow n true (duplicateRow i st)) = products st ∧
  arrays (deleteRow n true (duplicateRow i st)) = arrays st ∧
  products (deleteRow n true (addNewProduct now st)) = products st ∧
  (∀ l, l ∈ dom (arrays st) →
        arrays (deleteRow n true (addNewProduct now st)) !! l = arrays st !! l) ∧
  originalProducts (deleteRow n true (duplicateRow i st)) = originalProducts st ∧
  originalProducts (deleteRow n true (addNewProduct now st)) = originalProducts st.
Proof.
  cbv zeta. pose proof (is_fresh (dom (arrays st))) as Hfresh.
  split_and!; simpl; try done.
  - rewrite (delete_middle (products st) []). apply app_nil_r.
  - rewrite (delete_middle (products st) []). apply app_nil_r.
  - intros l Hl. apply lookup_insert_ne. intros E. apply Hfresh. by rewrite E.
Qed.

(** Out of range: [duplicateRow] still appends a row, one whose only
    property is the name made of the suffix, and [deleteRow] removes no
    row; neither fails, and the first leaves the modified marks alone
    while the second drops the index from them. *)
Theorem structural_edits_out_of_range (st : editor) (i : nat) :
  length (products st) ≤ i →
  products (duplicateRow i st) =
    products st ++ [set_product_name (Some " (Copy)"%string) empty_object] ∧
  modifiedRows (duplicateRow i st) = modifiedRows st ∧
  products (deleteRow i true st) = products st ∧
  modifiedRows (deleteRow i true st) = modifiedRows st ∖ {[i]} ∧
  selected (deleteRow i true st) = ∅.
Proof.
  intros Hi. split_and!; simpl; try done.
  - by rewrite lookup_ge_None_2.
  - by apply delete_past_end.
Qed.

Lemma structural_edits_out_of_range_demo :
  length (products (duplicateRow 7 demo)) = 3 ∧
  products (deleteRow 7 true demo) = products demo.
Proof.
  destruct (structural_edits_out_of_range demo 7) as (Hdup & _ & Hdel & _).
  - vm_compute. lia.
  - split; [|exact Hdel]. rewrite Hdup. reflexivity.
Defined.

End EditorMore.

(* ===================================================================== *)
(** * More on weights and upload *)
(* ===================================================================== *)

Section UploadMore.
Import Editor Upload.

(** Whatever the weight service does, the batch that is uploaded holds the
    rows of the table, all of them and in order, only their weights
    differ; the count in the metadata is the number of rows.  Nothing is
    uploaded for an empty table or when the operator declines. *)
Theorem upload_keeps_rows (srv : service) (products : list collected)
    (now : string) :
  row <$> (enrich srv products []).1 = row <$> products ∧
  length (enrich srv products []).1 = length products ∧
  uploadProducts srv [] true now = None ∧
  uploadProducts srv products false now = None ∧
  (products ≠ [] →
     ∃ data, uploadProducts srv products true now = Some data ∧
             row <$> upload_products data = row <$> products ∧
             total_products data = length products ∧
             upload_type data = "manual_edit"%string).
Proof.
  split_and!.
  - apply enrich_rows.
  - apply enrich_length.
  - done.
  - by destruct products.
  - intros Hne. destruct products as [|product rest]; [done|].
    eexists. split; [reflexivity|]. cbn [upload_products total_products upload_type].
    split_and!; [apply enrich_rows|apply enrich_length|done].
Qed.

Lemma upload_keeps_rows_sample :
  ∃ data, uploadProducts third_fails [row_in "Dresses"; blank_row] true "now"
            = Some data ∧
          total_products data = 2.
Proof.
  destruct (upload_keeps_rows third_fails [row_in "Dresses"; blank_row] "now")
    as (_ & _ & _ & _ & Hsent).
  destruct Hsent as (data & Hdata & _ & Htotal & _); [discriminate|].
  exists data. by split.
Defined.

(** The rows are weighed strictly one after the other: the lookups go out
    in row order, one for each row whose category name is truthy, and the
    weight of a row is the answer of the service to its lookup given
    exactly the lookups of the rows before it; a row with a falsy category
    name weighs 0 and makes no lookup. *)
Theorem enrich_sequential (srv : service) (products : list collected)
    (j : nat) (product : collected) :
  products !! j = Some product →
  (enrich srv products []).2 = lookups_before products (length products) ∧
  length (enrich srv products []).2 ≤ length products ∧
  weight <$> (enrich srv products []).1 !! j =
    Some (if name_truthy (categoryName_of product)
          then (fetchProductWeight srv (categoryName_of product)
                  (lookups_before products j)).1
          else 0%Z).
Proof.
  intros Hj. split_and!.
  - rewrite enrich_sent. unfold lookups_before. by rewrite take_ge.
  - rewrite enrich_sent. simpl. etrans; [apply length_filter|].
    by rewrite length_fmap.
  - by rewrite (enrich_weight srv products [] j product Hj).
Qed.

Lemma enrich_sequential_sample :
  weight <$> (enrich third_fails
                [row_in "Dresses"; row_in "Women"; row_in "Formal";
                 row_in "Shoes"] []).1 !! 3
  = Some 103%Z.
Proof.
  destruct (enrich_sequential third_fails
              [row_in "Dresses"; row_in "Women"; row_in "Formal"; row_in "Shoes"]
              3 (row_in "Shoes"))
    as (_ & _ & Hw); [reflexivity|].
  rewrite Hw. reflexivity.
Defined.

(** A lookup that fails in any way (the request is rejected, the response
    is not OK, the body is not JSON or not an object, or it is an object
    with no weight in any of the three places looked at) gives the row the
    weight 0, and the rows after it are still weighed. *)
Theorem enrich_failed_lookup_weighs_zero (srv : service)
    (products : list collected) (j : nat) (product : collected) :
  products !! j = Some product →
  (∀ data, srv (lookups_before products j) (categoryName_of product)
             = json_body data →
           body_weight data = None ∧
           (body_data data = None ∨ body_data data = Some None)) →
  weight <$> (enrich srv products []).1 !! j = Some 0%Z ∧
  length (enrich srv products []).1 = length products.
Proof.
  intros Hj Hfail. split; [|apply enrich_length].
  rewrite (enrich_weight srv products [] j product Hj). f_equal.
  destruct (name_truthy (categoryName_of product)); [|done].
  unfold fetchProductWeight. simpl.
  destruct (srv _ _) as [| | | |data] eqn:E; try done.
  destruct (Hfail data eq_refl) as [Hw Hd]. rewrite Hw.
  destruct (body_success data); destruct Hd as [-> | ->]; done.
Qed.

Lemma enrich_failed_lookup_sample :
  weight <$> (enrich third_fails
                [row_in "Dresses"; row_in "Women"; row_in "Formal";
                 row_in "Shoes"] []).1 !! 2
  = Some 0%Z.
Proof.
  apply (enrich_failed_lookup_weighs_zero third_fails
           [row_in "Dresses"; row_in "Women"; row_in "Formal"; row_in "Shoes"]
           2 (row_in "Formal")).
  - reflexivity.
  - intros data E. vm_compute in E. discriminate E.
Defined.

End UploadMore.


(* ===================================================================== *)
(** * More on the task monitor *)
(* ===================================================================== *)

Section ScraperText.
Import Scraper Monitor.

Lemma trimStart_split (s : jsstring) :
  ∃ pre, s = pre ++ trimStart s ∧ Forall (λ c, is_white_space c = true) pre.
Proof.
  induction s as [|c s IH]; simpl.
  - by exists [].
  - destruct (is_white_space c) eqn:Hc.
    + destruct IH as (pre & Hs & Hpre). exists (c :: pre). split.
      * simpl. by rewrite <- Hs.
      * by constructor.
    + by exists [].
Qed.

Lemma trimStart_head (s : jsstring) (c : code_unit) (r : jsstring) :
  trimStart s = c :: r → is_white_space c = false.
Proof.
  induction s as [|d s IH]; simpl; [done|].
  destruct (is_white_space d) eqn:Hd; [done|]. by intros [= <- _].
Qed.

Lemma trimStart_keeps (c : code_unit) (r : jsstring) :
  is_white_space c = false → trimStart (c :: r) = c :: r.
Proof. intros Hc. simpl. by rewrite Hc. Qed.

Lemma trimStart_snoc (l : jsstring) (c : code_unit) :
  is_white_space c = false → trimStart (l ++ [c]) ≠ [].
Proof.
  intros Hc. induction l as [|d l IH]; simpl.
  - by rewrite Hc.
  - by destruct (is_white_space d).
Qed.

Lemma trim_split (s : jsstring) :
  ∃ pre post,
    s = pre ++ trim s ++ post ∧
    Forall (λ c, is_white_space c = true) pre ∧
    Forall (λ c, is_white_space c = true) post.
Proof.
  destruct (trimStart_split s) as (pre & Hs & Hpre).
  destruct (trimStart_split (reverse (trimStart s))) as (tsop & Hr & Hpost).
  exists pre, (reverse tsop). split_and!.
  - unfold trim. rewrite <- reverse_app, <- Hr, reverse_involutive. exact Hs.
  - done.
  - by apply Forall_reverse.
Qed.

Lemma trim_head (s : jsstring) (c : code_unit) (r : jsstring) :
  trim s = c :: r → is_white_space c = false.
Proof.
  intros Ht. destruct (trimStart_split (reverse (trimStart s))) as (tsop & Hr & _).
  assert (trimStart s = trim s ++ reverse tsop) as Ha.
  { unfold trim. by rewrite <- reverse_app, <- Hr, reverse_involutive. }
  rewrite Ht in Ha. simpl in Ha. by eapply trimStart_head.
Qed.

Lemma trim_last (s : jsstring) (c : code_unit) :
  last (trim s) = Some c → is_white_space c = false.
Proof.
  unfold trim. rewrite last_reverse. intros Hh.
  destruct (trimStart (reverse (trimStart s))) as [|d t] eqn:E; [done|].
  simpl in Hh. injection Hh as ->. by eapply trimStart_head.
Qed.

Lemma trim_fixed (m : jsstring) :
  (∀ c r, m = c :: r → is_white_space c = false) →
  (∀ c, last m = Some c → is_white_space c = false) →
  trim m = m.
Proof.
  intros Hhead Hlast. unfold trim.
  assert (trimStart m = m) as ->.
  { destruct m as [|c r]; [done|]. apply trimStart_keeps. by eapply Hhead. }
  assert (trimStart (reverse m) = reverse m) as ->.
  { destruct (reverse m) as [|c r] eqn:E; [done|]. apply trimStart_keeps.
    apply Hlast. rewrite <- (reverse_involutive m), E. by rewrite last_reverse. }
  apply reverse_involutive.
Qed.

Lemma trim_ends (s : jsstring) :
  (∀ c, head (trim s) = Some c → is_white_space c = false) ∧
  (∀ c, last (trim s) = Some c → is_white_space c = false) ∧
  trim (trim s) = trim s.
Proof.
  split_and!.
  - intros c Hc. destruct (trim s) as [|d r] eqn:E; [done|].
    injection Hc as ->. by eapply trim_head.
  - apply trim_last.
  - apply trim_fixed.
    + intros c r Hc. by eapply trim_head.
    + apply trim_last.
Qed.

Lemma split_from_no_newline (s : jsstring) :
  ∀ piece, 10%N ∉ piece → ∀ u, u ∈ split_from piece s → 10%N ∉ u.
Proof.
  induction s as [|c s IH]; intros piece Hpiece u; simpl.
  - by intros ->%list_elem_of_singleton.
  - destruct (c =? 10)%N eqn:Hc.
    + intros [->|Hu]%elem_of_cons; [done|].
      eapply (IH []); [apply not_elem_of_nil|done].
    + apply IH. apply N.eqb_neq in Hc.
      intros [?|Heq%list_elem_of_singleton]%elem_of_app; [done|by apply Hc].
Qed.

Lemma split_from_first (s : jsstring) :
  ∀ piece, ∃ more rest, split_from piece s = (piece ++ more) :: rest.
Proof.
  induction s as [|c s IH]; intros piece; simpl.
  - exists [], []. by rewrite app_nil_r.
  - destruct (c =? 10)%N.
    + exists [], (split_from [] s). by rewrite app_nil_r.
    + destruct (IH (piece ++ [c])) as (more & rest & ->).
      exists (c :: more), rest. by rewrite <- app_assoc.
Qed.

Lemma trim_of_text (c : code_unit) (r : jsstring) :
  is_white_space c = false → trim (c :: r) ≠ [].
Proof.
  intros Hc. unfold trim. rewrite trimStart_keeps by done.
  rewrite reverse_cons. intros Hnil.
  apply (f_equal reverse) in Hnil. rewrite reverse_involutive in Hnil.
  by apply (trimStart_snoc (reverse r) c Hc).
Qed.

Lemma url_list_of_text (m : jsstring) (c : code_unit) (r : jsstring) :
  m = c :: r → is_white_space c = false → url_list m ≠ [].
Proof.
  intros -> Hc. unfold url_list, split_newline. simpl.
  assert ((c =? 10)%N = false) as ->.
  { apply N.eqb_neq. intros ->. by vm_compute in Hc. }
  destruct (split_from_first r [c]) as (more & rest & ->).
  simpl. rewrite filter_cons_True; [done|].
  destruct (trim (c :: more)) eqn:E; [|done].
  by apply trim_of_text in E.
Qed.

(** Every address that [startScraping] submits is a line of the input
    without its surrounding white space: it is not empty, neither starts
    nor ends with white space, holds no line feed and is left alone by
    another [trim]; there are no more addresses than lines. *)
Theorem url_list_entries_are_clean (urls u : jsstring) :
  u ∈ url_list urls →
  u ≠ [] ∧
  (∀ c, head u = Some c → is_white_space c = false) ∧
  (∀ c, last u = Some c → is_white_space c = false) ∧
  (10%N ∉ u) ∧
  trim u = u ∧
  length (url_list urls) ≤ length (split_newline urls).
Proof.
  unfold url_list. intros (piece & -> & [Htruthy Hpiece]%list_elem_of_filter)%list_elem_of_fmap.
  destruct (trim_split piece) as (pre & post & Hsplit & _).
  destruct (trim_ends piece) as (Hhead & Hlast & Hidem).
  split_and!; try done.
  - by destruct (trim piece).
  - intros Hin. eapply (split_from_no_newline urls []);
      [apply not_elem_of_nil|exact Hpiece|].
    rewrite Hsplit. apply elem_of_app. right. apply elem_of_app. by left.
  - rewrite length_fmap. apply length_filter.
Qed.

Lemma url_list_entries_are_clean_sample :
  [97; 46; 105; 111]%N ∈ url_list one_url_input ∧
  trim [97; 46; 105; 111]%N = [97; 46; 105; 111]%N.
Proof.
  assert ([97; 46; 105; 111]%N ∈ url_list one_url_input) as Hin.
  { vm_compute. apply list_elem_of_here. }
  split; [exact Hin|].
  by destruct (url_list_entries_are_clean one_url_input _ Hin)
    as (_ & _ & _ & _ & Hfix & _).
Defined.

(** The second validation of [startScraping] can never fire: a trimmed
    input that is not empty always yields an address, so whatever the
    input and the network, the chat never shows the request for valid
    URLs, and with the scrape button enabled a click always submits: the
    URLs are saved first. *)
Theorem startScraping_never_asks_for_valid_urls (urlInput : jsstring)
    (maxPagesValue : option Z) (aiPagination aiExtraction : bool)
    (save : response unit) (scrape : response scrape_body) (st : scraper) :
  let out := startScraping urlInput maxPagesValue aiPagination aiExtraction
                           save scrape st in
  (url_list (trim urlInput) = [] ↔ trim urlInput = []) ∧
  (e_message please_enter_valid_urls m_error ∉ out.2) ∧
  (updateScrapeButton urlInput st = false →
     head (requests out.2) = Some (post_save_urls (url_list (trim urlInput))) ∧
     url_list (trim urlInput) ≠ []).
Proof.
  cbv zeta.
  assert (url_list (trim urlInput) = [] ↔ trim urlInput = []) as Hiff.
  { split.
    - intros Hnone. destruct (trim urlInput) as [|c r] eqn:E; [done|].
      exfalso. eapply (url_list_of_text (c :: r)); [done| |done].
      by eapply trim_head.
    - by intros ->. }
  assert (∀ sofar why st1,
    e_message please_enter_valid_urls m_error ∉ sofar →
    e_message please_enter_valid_urls m_error ∉
      (let '(st2, es) := submission_failed why st1 in (st2, sofar ++ es)).2)
    as Hcatch.
  { intros sofar why st1 Hsofar. unfold submission_failed, resetScrapingState.
    simpl. intros [?|Hin]%elem_of_app; [done|].
    apply elem_of_cons in Hin as [[=]|Hin].
    destruct (websocket st1); [|by apply elem_of_nil in Hin].
    by apply list_elem_of_singleton in Hin. }
  split_and!.
  - exact Hiff.
  - unfold startScraping. destruct (trim urlInput) as [|c r] eqn:Htrim.
    + simpl. by intros [=]%list_elem_of_singleton.
    + cbn [truthy negb].
      assert (url_list (c :: r) ≠ []) as Hsome.
      { intros Hnone. apply Hiff in Hnone. discriminate Hnone. }
      destruct (url_list (c :: r)) as [|u us] eqn:Hurls; [done|].
      assert (∀ l : list effect,
        (∀ e, e ∈ l → (∃ r, e = e_request r) ∨ e = e_clear_results) →
        e_message please_enter_valid_urls m_error ∉ l) as Hquiet.
      { intros l Hl Hin. by destruct (Hl _ Hin) as [[r' ?]|?]. }
      assert (∀ a b, e_message please_enter_valid_urls m_error ∉
                [e_clear_results; e_request a; e_request b]) as Hasked.
      { intros a b. apply Hquiet. intros e Hin.
        repeat (apply elem_of_cons in Hin as [->|Hin]; [eauto|]).
        by apply elem_of_nil in Hin. }
      assert (∀ a, e_message please_enter_valid_urls m_error ∉
                [e_clear_results; e_request a]) as Hbegun.
      { intros a. apply Hquiet. intros e Hin.
        repeat (apply elem_of_cons in Hin as [->|Hin]; [eauto|]).
        by apply elem_of_nil in Hin. }
      destruct save as [| | | |saved]; try (apply Hcatch; apply Hbegun);
        (destruct scrape as [| | | |result];
         try (apply Hcatch; apply (Hasked _ _));
         destruct (success result); [|apply Hcatch; apply (Hasked _ _)];
         destruct (data result) as [task_id|]; [|apply Hcatch; apply (Hasked _ _)];
         cbn [snd monitorProgress connectWebSocket app];
         intros Hin;
         repeat (apply elem_of_cons in Hin as [[=]|Hin]);
         by apply elem_of_nil in Hin).
  - unfold updateScrapeButton. intros Hbutton.
    apply orb_false_elim in Hbutton as [Hurls Hactive].
    apply negb_false_iff, Nat.ltb_lt in Hurls.
    assert (url_list (trim urlInput) ≠ []) as Hsome.
    { intros Hnone. apply Hiff in Hnone. rewrite Hnone in Hurls. simpl in Hurls. lia. }
    split; [|done]. unfold startScraping.
    destruct (trim urlInput) as [|c r] eqn:Htrim; [done|]. cbn [truthy negb].
    destruct (url_list (c :: r)) as [|u us] eqn:Hl; [done|].
    unfold submission_failed, resetScrapingState.
    destruct save as [| | | |saved]; try done;
      destruct scrape as [| | | |result]; try done;
      destruct (success result); try done;
      destruct (data result); done.
Qed.

Lemma startScraping_never_asks_sample :
  head (requests (startScraping one_url_input None true true
                    (json_body ()) fetch_rejects new_scraper).2)
  = Some (post_save_urls [[97; 46; 105; 111]%N]).
Proof.
  destruct (startScraping_never_asks_for_valid_urls one_url_input None true true
              (json_body ()) fetch_rejects new_scraper) as (_ & _ & Hsubmit).
  destruct Hsubmit as [Hhead _]; [reflexivity|].
  rewrite Hhead. reflexivity.
Defined.

End ScraperText.

Section ScraperChannel.
Import Scraper Monitor.


Lemma closures_count (n : nat) (taskId : option string) :
  ∀ st,
    isScrapingActive st = true →
    reconnectAttempts st ≤ maxReconnectAttempts st →
    let k := n `min` (maxReconnectAttempts st - reconnectAttempts st) in
    let out := closures n taskId st in
    delays out.2 = (λ j, 2000 * N.of_nat j)%N <$> seq (S (reconnectAttempts st)) k ∧
    openings out.2 = replicate k taskId ∧
    reconnectAttempts out.1 = reconnectAttempts st + k ∧
    maxReconnectAttempts out.1 = maxReconnectAttempts st ∧
    isScrapingActive out.1 = true.
Proof.
  induction n as [|n IH]; intros st Hon Hle; cbv zeta.
  - simpl. split_and!; try done; lia.
  - destruct (decide (reconnectAttempts st < maxReconnectAttempts st)) as [Hlt|Hge].
    + cbn [closures]. unfold onclose. rewrite Hon.
      apply Nat.ltb_lt in Hlt as Hltb. rewrite Hltb. cbn [andb].
      set (st1 := Scraper true (currentTaskId st) (websocket st)
                          (S (reconnectAttempts st)) (maxReconnectAttempts st)).
      unfold connectWebSocket.
      set (st2 := Scraper (isScrapingActive st1) (currentTaskId st1)
                          (Some (Socket taskId)) (reconnectAttempts st1)
                          (maxReconnectAttempts st1)).
      specialize (IH st2 eq_refl). cbn [reconnectAttempts maxReconnectAttempts st2 st1] in IH.
      specialize (IH ltac:(lia)). cbv zeta in IH.
      destruct (closures n taskId st2) as [st3 es3].
      cbn [fst snd] in *. destruct IH as (Hd & Ho & Ha & Hm & Hact).
      replace (S n `min` (maxReconnectAttempts st - reconnectAttempts st))
        with (S (n `min` (maxReconnectAttempts st - S (reconnectAttempts st))))
        by lia.
      split_and!.
      * cbn [app]. unfold delays in *. cbn [omap list_omap]. rewrite Hd. done.
      * cbn [app]. unfold openings in *. cbn [omap list_omap]. rewrite Ho. done.
      * lia.
      * done.
      * done.
    + rewrite closures_spent by lia.
      replace (maxReconnectAttempts st - reconnectAttempts st) with 0 by lia.
      rewrite Nat.min_0_r. split_and!; try done; simpl; lia.
Qed.

(** While the task is active, [n] closures in a row starting from any
    count of attempts give as many reconnections as the limit still
    allows, no more: the delays are 2000 ms times the successive counts,
    each 2000 ms longer than the one before, and the counter ends at the
    limit at most. *)
Theorem reconnect_delays_from_any_count (n : nat) (taskId : option string)
    (st : scraper) :
  isScrapingActive st = true →
  reconnectAttempts st ≤ maxReconnectAttempts st →
  let k := n `min` (maxReconnectAttempts st - reconnectAttempts st) in
  let out := closures n taskId st in
  delays out.2 = (λ j, 2000 * N.of_nat j)%N <$> seq (S (reconnectAttempts st)) k ∧
  length (openings out.2) = k ∧
  reconnectAttempts out.1 = reconnectAttempts st + k ∧
  reconnectAttempts out.1 ≤ maxReconnectAttempts out.1.
Proof.
  intros Hon Hle. cbv zeta.
  destruct (closures_count n taskId st Hon Hle) as (Hd & Ho & Ha & Hm & _).
  split_and!; [done| |done|lia].
  rewrite Ho. apply length_replicate.
Qed.

Lemma reconnect_delays_sample :
  delays (closures 9 (Some "t1"%string)
            (Scraper true (Some "t1"%string) None 3 5)).2 = [8000; 10000]%N.
Proof.
  destruct (reconnect_delays_from_any_count 9 (Some "t1"%string)
              (Scraper true (Some "t1"%string) None 3 5)) as (Hd & _).
  - reflexivity.
  - simpl. lia.
  - rewrite Hd. reflexivity.
Defined.

(** A successful open gives the full allowance back: whatever number of
    closures came before it, the closures that follow it reconnect up to
    the limit again, with delays starting over at 2000 ms. *)
Theorem open_restores_reconnections (n m : nat) (taskId : option string)
    (st : scraper) :
  isScrapingActive st = true →
  reconnectAttempts st ≤ maxReconnectAttempts st →
  let opened := (onopen (closures n taskId st).1).1 in
  reconnectAttempts opened = 0 ∧
  delays (closures m taskId opened).2 =
    (λ j, 2000 * N.of_nat j)%N <$> seq 1 (m `min` maxReconnectAttempts st).
Proof.
  intros Hon Hle. cbv zeta.
  destruct (closures_count n taskId st Hon Hle) as (_ & _ & _ & Hm & Hact).
  split; [done|].
  destruct (closures_count m taskId (onopen (closures n taskId st).1).1)
    as (Hd & _).
  - exact Hact.
  - simpl. lia.
  - rewrite Hd. simpl. by rewrite Hm, Nat.sub_0_r.
Qed.

Lemma open_restores_reconnections_sample :
  delays (closures 2 (Some "t1"%string)
            (onopen (closures 4 (Some "t1"%string) (monitoring "t1")).1).1).2
  = [2000; 4000]%N.
Proof.
  destruct (open_restores_reconnections 4 2 (Some "t1"%string) (monitoring "t1"))
    as [_ Hd].
  - reflexivity.
  - simpl. lia.
  - rewrite Hd. reflexivity.
Defined.




Lemma raises_nowhere (products : list (option card_product)) :
  existsb createProductCard_raises products = false ↔
  Forall (λ product, createProductCard_raises product = false) products.
Proof.
  induction products as [|product rest IH]; simpl.
  - split; [by constructor|done].
  - rewrite orb_false_iff, IH, Forall_cons. done.
Qed.

Lemma raises_somewhere (products : list (option card_product)) :
  existsb createProductCard_raises products = true ↔
  Exists (λ product, createProductCard_raises product = true) products.
Proof.
  induction products as [|product rest IH]; simpl.
  - split; [done|by intros ?%Exists_nil].
  - rewrite orb_true_iff, IH, Exists_cons. done.
Qed.

(** A completion frame leaves the controller as it is and sets a timer of
    one second.  When the timer runs, the controller becomes idle if the
    frame had a result whose products are missing or an array of products
    that [createProductCard] can draw, all of them (an empty array is
    one), and the section shows a card for each.  If the frame had no
    result, or products with one that makes [createProductCard] raise, or
    products that are no array, the callback stops before the reset: the
    controller stays as it was, its socket is not closed and no section
    of products is shown. *)
Theorem completion_resets_after_timer (st : scraper)
    (result : option result_products) :
  (onmessage (task_completed (Some result)) st).1 = st ∧
  r_completion_timer result 1000 ∈ (onmessage (task_completed (Some result)) st).2 ∧
  (result = Some products_falsy ∨
   (∃ products,
      result = Some (products_array products) ∧
      Forall (λ product, createProductCard_raises product = false) products) →
   idle (completion_timer result st).1 ∧
   ∀ products, result = Some (products_array products) → products ≠ [] →
               r_displayResults (length products) ∈ (completion_timer result st).2) ∧
  (result = None ∨
   (∃ products,
      result = Some (products_array products) ∧
      Exists (λ product, createProductCard_raises product = true) products) ∨
   (∃ length, result = Some (products_other length) ∧ length ≠ Some 0) →
   (completion_timer result st).1 = st ∧
   (r_effect e_socket_close ∉ (completion_timer result st).2) ∧
   (∀ n, r_displayResults n ∉ (completion_timer result st).2)).
Proof.
  split_and!.
  - done.
  - simpl. apply list_elem_of_further, list_elem_of_here.
  - intros Hdraw.
    assert (∃ products, result = Some products ∧
                        displayResults_raises products = false)
      as (products & -> & Hno).
    { destruct Hdraw as [->|(products & -> & Hall)]; eexists; (split; [done|]);
        [done|by apply raises_nowhere]. }
    unfold completion_timer. rewrite Hno.
    unfold reset_reactions, resetScrapingState. split; [done|].
    intros l [= ->] Hl. cbn [snd found].
    destruct l; [done|]. apply list_elem_of_further, list_elem_of_here.
  - intros Hraise.
    destruct Hraise as [->|[(products & -> & Hsome%raises_somewhere)
                           |(length & -> & Hlength)]].
    + split_and!; [done|apply not_elem_of_nil|intros n; apply not_elem_of_nil].
    + unfold completion_timer, displayResults_raises. rewrite Hsome.
      split_and!; [done|..].
      * by intros [=]%list_elem_of_singleton.
      * by intros n [=]%list_elem_of_singleton.
    + unfold completion_timer, displayResults_raises.
      destruct length as [[|n]|]; [done|..];
        (split_and!; [done|..]);
        [by intros [=]%list_elem_of_singleton
        |by intros m [=]%list_elem_of_singleton
        |by intros [=]%list_elem_of_singleton
        |by intros m [=]%list_elem_of_singleton].
Qed.

Lemma completion_resets_sample :
  idle (completion_timer (Some two_drawable) (monitoring "t1")).1 ∧
  (completion_timer (Some one_undrawable) (monitoring "t1")).1 = monitoring "t1".
Proof.
  split.
  - destruct (completion_resets_after_timer (monitoring "t1") (Some two_drawable))
      as (_ & _ & Hidle & _).
    apply Hidle. right. exists [drawable; drawable].
    split; [reflexivity|]. repeat constructor.
  - destruct (completion_resets_after_timer (monitoring "t1") (Some one_undrawable))
      as (_ & _ & _ & Hstays).
    apply Hstays. right. left. exists [drawable; sizes_as_text].
    split; [reflexivity|]. apply Exists_cons_tl, Exists_cons_hd. reflexivity.
Defined.

(** Run without interruption, the two pieces of [startScraping] are
    [startScraping]. *)
Lemma startScraping_in_two_pieces (urlInput : jsstring) (maxPagesValue : option Z)
    (aiPagination aiExtraction : bool) (save : response unit)
    (scrape : response scrape_body) (st : scraper) :
  (startScraping urlInput maxPagesValue aiPagination aiExtraction save scrape st).1
  = if submits urlInput
    then startScraping_ends (submission_of save scrape)
           (startScraping_begins urlInput st)
    else st.
Proof.
  unfold startScraping, startScraping_begins, submits.
  destruct (truthy (trim urlInput)); [|done]. cbn [negb andb].
  destruct (url_list (trim urlInput)); [done|].
  unfold startScraping_ends, submission_of, submission_failed, resetScrapingState.
  destruct save as [| | | |saved]; try done;
    destruct scrape as [| | | |r]; try done;
    destruct (success r); try done; destruct (data r); done.
Qed.

(** Whatever happens to a controller made by the constructor
    (submissions, clears, opens, closures, timers, frames, with any
    answers from the network and in any order, the handlers that run
    while a submission awaits its answers included), the limit of
    reconnections stays five and the count of attempts never exceeds it.
    The scraping mark and the task id are not tied in this way: when a
    clear completes while a submission awaits its answer, the accepted
    task is recorded and its socket opened on a controller that is not
    scraping, so that a closure of that socket sets no reconnection. *)
Theorem controller_invariant (events : list event) :
  (let st := run events new_scraper in
   maxReconnectAttempts st = 5 ∧ reconnectAttempts st ≤ 5) ∧
  (∀ urlInput active terminate task_id,
     submits urlInput = true →
     let st := run (events ++ [ev_startScraping_begins urlInput;
                               ev_clear active terminate;
                               ev_startScraping_ends (submission_accepted task_id)])
                   new_scraper in
     isScrapingActive st = false ∧
     currentTaskId st = task_id ∧
     websocket st = Some (Socket task_id) ∧
     onclose task_id st = (st, [])).
Proof.
  assert (∀ st e,
    maxReconnectAttempts st = 5 ∧ reconnectAttempts st ≤ 5 →
    maxReconnectAttempts (handle e st) = 5 ∧ reconnectAttempts (handle e st) ≤ 5)
    as Hstep.
  { intros st e [Hmax Hle].
    destruct e as [u|outcome|active terminate| |taskId|taskId|f|result];
      cbn [handle].
    - unfold startScraping_begins. by destruct (submits u).
    - by destruct outcome.
    - done.
    - simpl. split; [done|lia].
    - unfold onclose. destruct (isScrapingActive st); [|done].
      destruct (reconnectAttempts st <? maxReconnectAttempts st) eqn:Hlt; [|done].
      apply Nat.ltb_lt in Hlt. simpl. split; [done|lia].
    - done.
    - destruct f as [|[d|]|[d|]|[d|]|[d|]|[[d|]|]|t]; try done;
        simpl; by destruct (websocket st).
    - unfold completion_timer. destruct result as [products|]; [|done].
      destruct (displayResults_raises products); [done|].
      simpl. by destruct (websocket st). }
  split.
  - cbv zeta. unfold run. induction events as [|e events IH] using rev_ind.
    + simpl. split; [done|lia].
    + rewrite foldl_app. simpl. by apply Hstep.
  - intros urlInput active terminate task_id Hsubmits. cbv zeta.
    unfold run. rewrite foldl_app. cbn [foldl handle].
    unfold startScraping_begins. rewrite Hsubmits. done.
Qed.

Lemma controller_invariant_sample :
  let st := run [ev_startScraping_begins [120%N];
                 ev_clear fetch_rejects (λ _, fetch_rejects);
                 ev_startScraping_ends (submission_accepted (Some "t1"%string))]
                new_scraper in
  isScrapingActive st = false ∧ currentTaskId st = Some "t1"%string.
Proof.
  cbv zeta.
  destruct (proj2 (controller_invariant [])
              [120%N] fetch_rejects (λ _, fetch_rejects) (Some "t1"%string) eq_refl)
    as (Hactive & Hid & _).
  split; [exact Hactive|exact Hid].
Defined.

Lemma children_cons_length (n : node) (l : list node) :
  length (children (n :: l)) =
  match n with element _ => 1 | text_node _ => 0 end + length (children l).
Proof.
  unfold children. rewrite (omap_app _ [n] l), length_app. by destruct n.
Qed.

Lemma children_snoc_length (l : list node) (entry : log_entry) :
  length (children (l ++ [element entry])) = length (children l) + 1.
Proof. unfold children. by rewrite omap_app, length_app. Qed.

Lemma text_nodes_children (childNodes : list node) :
  length (children childNodes) ≤ length childNodes.
Proof.
  induction childNodes as [|n l IH]; [done|].
  rewrite children_cons_length. destruct n; simpl; lia.
Qed.

Lemma append_capped_bound (entry : log_entry) (childNodes : list node) (b : nat) :
  length childNodes ≤ 50 + b →
  text_nodes childNodes ≤ b →
  length (append_capped entry childNodes) ≤ 50 + b ∧
  text_nodes (append_capped entry childNodes) ≤ b.
Proof.
  unfold append_capped, text_nodes. intros Hlen Htext.
  pose proof (text_nodes_children childNodes) as Hc.
  rewrite children_snoc_length.
  destruct (50 <? length (children childNodes) + 1) eqn:E.
  - apply Nat.ltb_lt in E.
    destruct childNodes as [|first rest].
    + simpl in E. lia.
    + cbn [app tail]. rewrite children_snoc_length, length_app.
      rewrite children_cons_length in *. pose proof (text_nodes_children rest).
      cbn [length] in *. destruct first; lia.
  - apply Nat.ltb_ge in E. rewrite children_snoc_length, length_app.
    cbn [length]. lia.
Qed.

(** The log stays bounded whatever number of updates arrives: starting
    with at most fifty entries, it never holds more than fifty entries
    plus the number of text nodes it started with, and text nodes are
    only ever removed; on the log of the progress panel that is at most
    fifty-two entries. *)
Theorem progress_log_is_bounded (childNodes : list node) (us : list update) :
  length (children childNodes) ≤ 50 →
  ∃ after,
    add_all us (Some childNodes) = Some after ∧
    length (children after) ≤ 50 + text_nodes childNodes ∧
    text_nodes after ≤ text_nodes childNodes.
Proof.
  intros Hentries.
  assert (∀ us nodes,
    length nodes ≤ 50 + text_nodes childNodes →
    text_nodes nodes ≤ text_nodes childNodes →
    ∃ after, add_all us (Some nodes) = Some after ∧
             length after ≤ 50 + text_nodes childNodes ∧
             text_nodes after ≤ text_nodes childNodes) as Hrun.
  { clear us. unfold add_all. induction us as [|u us IH]; intros nodes Hlen Htext.
    - by exists nodes.
    - simpl. destruct (append_capped_bound (entry_of u) nodes _ Hlen Htext)
        as [Hlen' Htext'].
      apply (IH _ Hlen' Htext'). }
  destruct (Hrun us childNodes) as (after & Hafter & Hlen & Htext).
  - pose proof (text_nodes_children childNodes). unfold text_nodes. lia.
  - done.
  - exists after. split_and!; [done| |done].
    pose proof (text_nodes_children after). lia.
Qed.

Lemma progress_log_is_bounded_sample :
  ∃ after, add_all sixty_updates (Some initial_log) = Some after ∧
           length (children after) ≤ 52.
Proof.
  destruct (progress_log_is_bounded initial_log sixty_updates)
    as (after & Hafter & Hbound & _).
  - vm_compute. lia.
  - exists after. split; [exact Hafter|exact Hbound].
Defined.

End ScraperChannel.

(* ===================================================================== *)
(** * Properties of the sub-domain list *)
(* ===================================================================== *)

Section DomainPages.
Import Scraper Domains.

Lemma totalPages_covers (total perPage : nat) :
  0 < perPage → total ≤ totalPages total perPage * perPage.
Proof.
  intros Hp. unfold totalPages.
  pose proof (Nat.div_mod_eq (total + perPage - 1) perPage) as Hdiv.
  pose proof (Nat.mod_upper_bound (total + perPage - 1) perPage) as Hmod.
  nia.
Qed.

Lemma totalPages_tight (total perPage : nat) :
  0 < perPage → 0 < total → (totalPages total perPage - 1) * perPage < total.
Proof.
  intros Hp Ht. unfold totalPages.
  pose proof (Nat.div_mod_eq (total + perPage - 1) perPage) as Hdiv.
  pose proof (Nat.mod_upper_bound (total + perPage - 1) perPage) as Hmod.
  nia.
Qed.

Lemma totalPages_none (perPage : nat) : 0 < perPage → totalPages 0 perPage = 0.
Proof. intros Hp. unfold totalPages. apply Nat.div_small. lia. Qed.

Lemma pages_concat (urls : list string) (perPage n : nat) :
  concat ((λ i, pageItems urls i perPage) <$> seq 1 n) = take (n * perPage) urls.
Proof.
  induction n as [|n IH]; [done|].
  rewrite seq_S, fmap_app, concat_app, IH. cbn [fmap list_fmap concat].
  rewrite app_nil_r. unfold pageItems.
  replace (1 + n - 1) with n by lia.
  rewrite take_take_drop. f_equal. lia.
Qed.

Lemma pageItems_in_range (urls : list string) (perPage i : nat) :
  0 < perPage → 1 ≤ i ≤ totalPages (length urls) perPage →
  pageItems urls i perPage ≠ [].
Proof.
  intros Hp [Hi1 Hi2] Hnil. apply (f_equal length) in Hnil.
  unfold pageItems in Hnil. rewrite length_take, length_drop in Hnil. simpl in Hnil.
  assert (0 < length urls) as Ht.
  { destruct urls; simpl; [|lia]. rewrite totalPages_none in Hi2 by done. lia. }
  pose proof (totalPages_tight (length urls) perPage Hp Ht). nia.
Qed.

Lemma page_handle_in_range (e : page_event) (d : domains) :
  page_in_range d → page_in_range (page_handle e d).
Proof.
  intros Hd. destruct e as [input answer|value|i]; simpl.
  - unfold getDomainUrls. destruct (negb _); [done|].
    destruct answer; try done. by left.
  - unfold perPageChanged. destruct (perPageSelect d); [by left|done].
  - unfold pageClicked, render.
    destruct (perPageSelect d) as [[|p]|] eqn:Hsel; try done.
    + by destruct (length (urls d) =? 0).
    + cbn [pagination]. case_bool_decide as Hin; [|done].
      right. exists (S p). cbn [perPageSelect currentPage urls].
      split_and!; [done|lia|..];
        destruct (1 <? totalPages _ _); simpl in Hin;
        try (by apply elem_of_nil in Hin);
        rewrite <- list_fmap_compose in Hin;
        apply list_elem_of_fmap in Hin as (j & -> & Hj);
        apply elem_of_seq in Hj; simpl; lia.
Qed.

Lemma page_run_in_range (events : list page_event) (d : domains) :
  page_in_range d → page_in_range (page_run events d).
Proof.
  unfold page_run. revert d. induction events as [|e events IH]; intros d Hd; [done|].
  simpl. apply IH. destruct (render d); try done; by apply page_handle_in_range.
Qed.

(** The pages cut the list of sub-domains into consecutive pieces: put
    together in order they give the list back, every page but the last is
    full, the last one is not empty, and past the last page there is
    nothing. *)
Theorem pages_partition (urls : list string) (perPage : nat) :
  0 < perPage →
  let pages := totalPages (length urls) perPage in
  concat ((λ i, pageItems urls i perPage) <$> seq 1 pages) = urls ∧
  (∀ i, 1 ≤ i < pages → length (pageItems urls i perPage) = perPage) ∧
  (∀ i, 1 ≤ i ≤ pages → pageItems urls i perPage ≠ []) ∧
  (∀ i, pages < i → pageItems urls i perPage = []).
Proof.
  intros Hp pages. subst pages.
  pose proof (totalPages_covers (length urls) perPage Hp) as Hcover.
  split_and!.
  - rewrite pages_concat. by apply take_ge.
  - intros i [Hi1 Hi2]. unfold pageItems.
    rewrite length_take, length_drop. simpl.
    assert (0 < length urls) as Ht.
    { destruct urls; simpl; [|lia]. rewrite totalPages_none in Hi2 by done. lia. }
    pose proof (totalPages_tight (length urls) perPage Hp Ht). nia.
  - intros i Hi. by apply pageItems_in_range.
  - intros i Hi. unfold pageItems. simpl.
    rewrite drop_ge; [by destruct perPage|]. nia.
Qed.

Lemma pages_partition_sample :
  let urls := ["a"; "b"; "c"; "d"; "e"]%string in
  totalPages 5 2 = 3 ∧
  pageItems urls 1 2 ++ pageItems urls 2 2 ++ pageItems urls 3 2 = urls ∧
  pageItems urls 3 2 = ["e"]%string ∧
  pageItems urls 4 2 = [].
Proof.
  cbv zeta.
  destruct (pages_partition ["a"; "b"; "c"; "d"; "e"]%string 2 ltac:(lia))
    as (Hcat & _ & _ & Hpast).
  split; [reflexivity|]. split; [|split; [reflexivity|]].
  - etrans; [|exact Hcat]. reflexivity.
  - apply Hpast. vm_compute. lia.
Defined.

(** Whatever is fetched, chosen as page size or clicked, starting from
    the state the constructor sets up: when [render] draws the list, the
    notice that no sub-domain was found stands for an empty list of
    sub-domains and for nothing else, and when page buttons are drawn the
    one marked active is the current page, which is among them. *)
Theorem rendered_page_is_in_range (perPage : option nat) (events : list page_event)
    (v : page_view) :
  let d := page_run events (new_domains perPage) in
  render d = rendered v →
  (domainList v = [] ↔ urls d = []) ∧
  (pagination v ≠ [] →
     (currentPage d, true) ∈ pagination v ∧
     ∀ i, (i, true) ∈ pagination v → i = currentPage d).
Proof.
  intros d. assert (page_in_range d) as Hd.
  { apply page_run_in_range. by left. }
  clearbody d. unfold render.
  destruct (perPageSelect d) as [[|p]|] eqn:Hsel; [| |done].
  - destruct (length (urls d) =? 0) eqn:Hlen; [|done].
    intros [= <-]. apply Nat.eqb_eq in Hlen. simpl. split; [|done].
    unfold pageItems. simpl. by destruct (urls d).
  - remember (totalPages (length (urls d)) (S p)) as pages eqn:Hpg.
    intros [= <-]. cbn [domainList pagination]. split.
    + split.
      * intros Hnil. destruct Hd as [H1|(p' & Hp' & Hpos & Hrange)].
        -- rewrite H1 in Hnil. unfold pageItems in Hnil. simpl in Hnil.
           by destruct (urls d).
        -- rewrite Hsel in Hp'. injection Hp' as <-.
           by apply pageItems_in_range in Hnil.
      * intros ->. unfold pageItems. by rewrite drop_nil, take_nil.
    + match goal with
      | |- context [1 <? ?n] => destruct (1 <? n) eqn:Hpages; [|done]
      end.
      intros _.
      apply Nat.ltb_lt in Hpages. split.
      * apply list_elem_of_fmap. exists (currentPage d). split.
        -- by rewrite bool_decide_eq_true_2.
        -- apply elem_of_seq.
           destruct Hd as [H1|(p' & Hp' & Hpos & Hrange)]; [lia|].
           rewrite Hsel in Hp'. injection Hp' as <-.
           rewrite <- Hpg in Hrange. lia.
      * intros i Hin. apply list_elem_of_fmap in Hin as (j & [= -> Hact] & _).
        symmetry in Hact. by apply bool_decide_eq_true in Hact.
Qed.

Lemma rendered_page_sample :
  let events := [pe_getDomainUrls [120%N] (json_body (Some ["a"; "b"; "c"]%string));
                 pe_pageClicked 2; pe_pageClicked 7] in
  let d := page_run events (new_domains (Some 2)) in
  currentPage d = 2 ∧
  render d = rendered (PageView ["c"]%string [(1, false); (2, true)]) ∧
  (2, true) ∈ [(1, false); (2, true)].
Proof.
  cbv zeta. split; [reflexivity|]. split; [reflexivity|].
  refine (proj1 (proj2 (rendered_page_is_in_range (Some 2)
    [pe_getDomainUrls [120%N] (json_body (Some ["a"; "b"; "c"]%string));
     pe_pageClicked 2; pe_pageClicked 7]
    (PageView ["c"]%string [(1, false); (2, true)]) _) _)).
  - reflexivity.
  - discriminate.
Defined.

End DomainPages.

(* ===================================================================== *)
(** * Properties of the results page *)
(* ===================================================================== *)

Section ResultsPage.
Import Scraper Results.

Lemma count_ticked_le (checkboxes : list bool) :
  length (filter (λ cb, cb = true) checkboxes) ≤ length checkboxes.
Proof. apply length_filter. Qed.

Lemma count_ticked_all (checkboxes : list bool) :
  length (filter (λ cb, cb = true) checkboxes) = length checkboxes ↔
  ∀ cb, cb ∈ checkboxes → cb = true.
Proof.
  induction checkboxes as [|b bs IH]; simpl.
  - split; [|done]. intros _ cb Hcb. by apply elem_of_nil in Hcb.
  - pose proof (count_ticked_le bs) as Hle. destruct b.
    + rewrite filter_cons_True by done. simpl. split.
      * intros [= Hlen] cb [->|Hcb]%elem_of_cons; [done|]. by apply IH.
      * intros Hall. f_equal. apply IH. intros cb Hcb. apply Hall. by right.
    + rewrite filter_cons_False by done. split; [lia|].
      intros Hall. discriminate (Hall false). by left.
Qed.

Lemma count_ticked_none (checkboxes : list bool) :
  length (filter (λ cb, cb = true) checkboxes) = 0 ↔
  ∀ cb, cb ∈ checkboxes → cb = false.
Proof.
  induction checkboxes as [|b bs IH]; simpl.
  - split; [|done]. intros _ cb Hcb. by apply elem_of_nil in Hcb.
  - destruct b.
    + rewrite filter_cons_True by done. simpl. split; [lia|].
      intros Hall. discriminate (Hall true). by left.
    + rewrite filter_cons_False by done. rewrite IH. split.
      * intros Hall cb [->|Hcb]%elem_of_cons; [done|]. by apply Hall.
      * intros Hall cb Hcb. apply Hall. by right.
Qed.

Lemma forallb_ticked (checkboxes : list bool) :
  forallb id checkboxes = true ↔ ∀ cb, cb ∈ checkboxes → cb = true.
Proof.
  rewrite forallb_forall. split; intros H cb Hcb.
  - apply (H cb). by apply list_elem_of_In.
  - apply (H cb). by apply list_elem_of_In.
Qed.

Lemma fmap_const_replicate {A B} (b : B) (l : list A) :
  (λ _, b) <$> l = replicate (length l) b.
Proof. induction l as [|a l IH]; simpl; [done|]. f_equal. exact IH. Qed.

Lemma ticked_lookup (cards : list card) (before products : list Editor.json_product) :
  cards.*1 = seq (length before) (length products) →
  (λ index, (before ++ products) !! index) <$> selectedIndices cards
  = Some <$> ticked cards.*2 products.
Proof.
  unfold selectedIndices.
  revert before products. induction cards as [|[i b] cards IH]; intros before products Hidx.
  - done.
  - destruct products as [|p products]; [done|].
    simpl in Hidx. injection Hidx as -> Hidx.
    specialize (IH (before ++ [p]) products).
    rewrite length_app, <- (assoc_L (++)) in IH. simpl in IH.
    rewrite Nat.add_1_r in IH. specialize (IH Hidx).
    cbn [fmap list_fmap snd ticked]. destruct b.
    + rewrite filter_cons_True by done. cbn [fmap list_fmap fst].
      rewrite list_lookup_middle by done. f_equal. exact IH.
    + rewrite filter_cons_False by (simpl; discriminate). exact IH.
Qed.

Lemma ticked_sublist {A} (checkboxes : list bool) (items : list A) :
  sublist (ticked checkboxes items) items.
Proof.
  revert items. induction checkboxes as [|b bs IH]; intros [|item items]; simpl;
    try apply sublist_nil_l.
  destruct b; [apply sublist_skip|apply sublist_cons]; apply IH.
Qed.

Lemma strip_pending (pending s : jsstring) :
  (62%N ∉ s → strip_from (Some pending) s = pending ++ s) ∧
  (∀ a b, s = a ++ 62%N :: b → 62%N ∉ a →
          strip_from (Some pending) s = strip_from None b).
Proof.
  revert pending. induction s as [|c s IH]; intros pending.
  - split.
    + intros _. simpl. by rewrite app_nil_r.
    + intros [|??] ? ?; discriminate.
  - simpl. destruct (N.eqb_spec c 62) as [->|Hc].
    + split.
      * intros Hnot. exfalso. apply Hnot. by left.
      * intros [|x a] b Heq Ha.
        -- by injection Heq as ->.
        -- injection Heq as <- _. exfalso. apply Ha. by left.
    + destruct (IH (pending ++ [c])) as [IH1 IH2]. split.
      * intros Hnot. rewrite IH1, <- (assoc_L (++)); [done|].
        intros Hin. apply Hnot. by right.
      * intros [|x a] b Heq Ha.
        -- injection Heq as -> _. done.
        -- injection Heq as <- ->. apply (IH2 a b); [done|].
           intros Hin. apply Ha. by right.
Qed.

Lemma strip_from_spec (n : nat) (s : jsstring) :
  length s ≤ n →
  no_tag (strip_from None s) ∧ sublist (strip_from None s) s.
Proof.
  revert s. induction n as [|n IH]; intros [|c s] Hlen; simpl in *; try lia.
  - split; [|done]. intros [|??] ? ?; discriminate.
  - split; [|done]. intros [|??] ? ?; discriminate.
  - destruct (N.eqb_spec c 60) as [->|Hc].
    + destruct (decide (62%N ∈ s)) as [Hin|Hnot].
      * apply list_elem_of_split_l in Hin as (a & b & -> & Ha).
        rewrite (proj2 (strip_pending [60%N] _) a b eq_refl Ha).
        rewrite length_app in Hlen. simpl in Hlen.
        destruct (IH b ltac:(lia)) as [Htag Hsub]. split; [done|].
        apply sublist_cons. apply sublist_inserts_l. by apply sublist_cons.
      * rewrite (proj1 (strip_pending [60%N] s) Hnot). simpl. split; [|done].
        intros [|x before] after Heq.
        -- by injection Heq as <-.
        -- injection Heq as _ ->. intros Hin. apply Hnot.
           apply elem_of_app. right. by right.
    + destruct (IH s ltac:(lia)) as [Htag Hsub]. split; [|by apply sublist_skip].
      intros [|x before] after Heq.
      * by injection Heq as -> _.
      * injection Heq as _ Heq. by apply (Htag before).
Qed.

Lemma strip_from_no_tag (s : jsstring) : no_tag s → strip_from None s = s.
Proof.
  induction s as [|c s IH]; intros Htag; simpl; [done|].
  destruct (N.eqb_spec c 60) as [->|Hc].
  - apply (proj1 (strip_pending [60%N] s)). by apply (Htag []).
  - f_equal. apply IH. intros before after ->. by apply (Htag (c :: before)).
Qed.

(** What the results page shows follows the ticks: the count never
    exceeds the number of cards, the edit button is visible exactly when
    some card is ticked, and the select-all button reads as a deselect
    button exactly when there is a card and every card is ticked. *)
Theorem selection_view_follows_ticks (checkboxes : list bool) :
  let view := handleProductSelection checkboxes in
  selectedCount view ≤ length checkboxes ∧
  (editUploadShown view = true ↔ true ∈ checkboxes) ∧
  (deselectAllLabel view = true ↔
     checkboxes ≠ [] ∧ ∀ cb, cb ∈ checkboxes → cb = true) ∧
  selectedCards view = checkboxes.
Proof.
  cbv zeta. unfold handleProductSelection. cbn [selectedCount editUploadShown
    deselectAllLabel selectedCards].
  split_and!.
  - apply count_ticked_le.
  - rewrite Nat.ltb_lt. split.
    + intros Hpos. destruct (decide (true ∈ checkboxes)) as [|Hnot]; [done|].
      exfalso. assert (length (filter (λ cb, cb = true) checkboxes) = 0); [|lia].
      apply count_ticked_none. intros [] Hcb; done.
    + intros Hin. destruct (length _) eqn:Hzero; [|lia].
      discriminate (proj1 (count_ticked_none checkboxes) Hzero true Hin).
  - rewrite andb_true_iff, Nat.eqb_eq, Nat.ltb_lt, count_ticked_all.
    split; intros [H1 H2]; (split; [|done]) || split; try done.
    + intros ->. simpl in H2. lia.
    + destruct checkboxes; [done|simpl; lia].
  - done.
Qed.

(** Select-all on a page with cards ticks every card unless all are
    ticked already, in which case it clears them all; the view follows.
    Pressed twice it restores a full selection and clears any other. *)
Theorem select_all_toggles (checkboxes : list bool) :
  checkboxes ≠ [] →
  let n := length checkboxes in
  let all := forallb id checkboxes in
  let after := selectAllProducts checkboxes in
  let view := handleProductSelection after in
  after = replicate n (negb all) ∧
  selectedCount view = (if all then 0 else n) ∧
  editUploadShown view = negb all ∧
  deselectAllLabel view = negb all ∧
  selectAllProducts after = replicate n all.
Proof.
  intros Hne. cbv zeta.
  assert (selectAllProducts checkboxes
          = replicate (length checkboxes) (negb (forallb id checkboxes))) as Hafter.
  { destruct checkboxes as [|b bs]; [done|]. unfold selectAllProducts.
    apply fmap_const_replicate. }
  rewrite Hafter. set (n := length checkboxes).
  assert (0 < n) as Hn. { subst n. destruct checkboxes; [done|simpl; lia]. }
  clearbody n. clear Hafter Hne.
  assert (∀ b : bool,
            length (filter (λ cb, cb = true) (replicate n b)) = if b then n else 0)
    as Hcount.
  { intros b. clear Hn. induction n as [|m IH]; [by destruct b|].
    cbn [replicate]. destruct b.
    - rewrite filter_cons_True by done. cbn [length]. by rewrite IH.
    - rewrite filter_cons_False by done. exact IH. }
  assert (∀ b, forallb id (replicate n b) = b) as Hall.
  { intros b. destruct b.
    - apply forallb_ticked. by intros cb [-> _]%elem_of_replicate.
    - destruct n; [lia|]. done. }
  unfold handleProductSelection.
  cbn [selectedCount editUploadShown deselectAllLabel].
  rewrite Hcount, length_replicate.
  split_and!.
  - done.
  - by destruct (forallb id checkboxes).
  - destruct (forallb id checkboxes); simpl; [done|]. by apply Nat.ltb_lt.
  - destruct (forallb id checkboxes); simpl.
    + destruct n; [lia|done].
    + rewrite Nat.eqb_refl. simpl. by apply Nat.ltb_lt.
  - destruct n as [|m]; [lia|]. unfold selectAllProducts.
    change (replicate (S m) (negb (forallb id checkboxes)))
      with (negb (forallb id checkboxes) :: replicate m (negb (forallb id checkboxes))).
    cbv iota beta.
    change (negb (forallb id checkboxes) :: replicate m (negb (forallb id checkboxes)))
      with (replicate (S m) (negb (forallb id checkboxes))).
    rewrite Hall, negb_involutive, fmap_const_replicate, length_replicate. done.
Qed.

Lemma select_all_toggles_sample :
  selectAllProducts [true; false; true] = [true; true; true] ∧
  selectAllProducts (selectAllProducts [true; false; true]) = [false; false; false].
Proof.
  destruct (select_all_toggles [true; false; true] ltac:(discriminate))
    as (H1 & _ & _ & _ & H2).
  split; [exact H1|exact H2].
Defined.

(** With the cards of one list of results on the page, the edit button
    stages exactly the ticked products, each as it was extracted and in
    the order of the cards, and nothing when no card is ticked; the
    editor that loads the staged list gets working rows and a snapshot
    that both equal it. *)
Theorem edit_selected_hands_over (cards : list card)
    (products : list Editor.json_product) (taskId : option string) :
  cards.*1 = seq 0 (length products) →
  let chosen := ticked cards.*2 products in
  sublist chosen products ∧
  (chosen = [] → editSelectedProducts cards products taskId = None) ∧
  (chosen ≠ [] →
     ∃ id, editSelectedProducts cards products taskId = Some (Some <$> chosen, id)) ∧
  Editor.working_value (Editor.loadProducts chosen) = chosen ∧
  Editor.snapshot_value (Editor.loadProducts chosen) = chosen.
Proof.
  intros Hidx chosen.
  pose proof (ticked_lookup cards [] products Hidx) as Hlook. simpl in Hlook.
  fold chosen in Hlook.
  destruct (loadProducts_separated chosen) as (_ & Hsnap & Hwork).
  split_and!; try done.
  - apply ticked_sublist.
  - intros Hnil. rewrite Hnil in Hlook. unfold editSelectedProducts.
    destruct (selectedIndices cards); [done|discriminate].
  - intros Hne. unfold editSelectedProducts.
    destruct (selectedIndices cards) as [|i indices] eqn:Hsel.
    + destruct chosen; [done|discriminate].
    + rewrite Hlook. eauto.
Qed.

Lemma edit_selected_sample :
  editSelectedProducts [(0, false); (1, true)] Editor.demo_products None
  = Some (Some <$> ticked [false; true] Editor.demo_products, None).
Proof.
  destruct (edit_selected_hands_over [(0, false); (1, true)] Editor.demo_products None
              eq_refl) as (_ & _ & Hsome & _).
  destruct (Hsome ltac:(discriminate)) as [id Hid].
  etrans; [exact Hid|]. f_equal. f_equal.
  vm_compute in Hid. by injection Hid as <-.
Defined.

(** Stripping the tags of a description leaves a text in which the tag
    pattern matches nowhere, made of characters of the description in
    their order; a text without tag is left as it is, so stripping twice
    changes nothing more. *)
Theorem strip_tags_leaves_no_tag (s : jsstring) :
  no_tag (strip_tags s) ∧
  sublist (strip_tags s) s ∧
  (no_tag s → strip_tags s = s) ∧
  strip_tags (strip_tags s) = strip_tags s.
Proof.
  unfold strip_tags. destruct (strip_from_spec (length s) s (le_n _)) as [Htag Hsub].
  split_and!; try done.
  - apply strip_from_no_tag.
  - by apply strip_from_no_tag.
Qed.

Lemma strip_tags_sample :
  strip_tags (units "1<2") = units "1<2".
Proof.
  apply (proj1 (proj2 (proj2 (strip_tags_leaves_no_tag (units "1<2"))))).
  intros [|x [|y [|z [|??]]]] after Heq; vm_compute in Heq; try discriminate.
  injection Heq as <- <-. intros Hin.
  apply elem_of_cons in Hin as [[=]|Hin]. by apply elem_of_nil in Hin.
Defined.

(** The description on a card has at most 103 characters, and a
    description of at most 100 characters is shown whole with its tags
    removed. *)
Theorem card_description_is_short (description : option jsstring) :
  length (card_description description) ≤ 103 ∧
  (∀ d, description = Some d → d ≠ [] → length d ≤ 100 →
        card_description description = strip_tags d).
Proof.
  split.
  - destruct description as [d|]; simpl; [|vm_compute; lia].
    destruct (truthy d); [|vm_compute; lia].
    rewrite length_app, length_take.
    destruct (100 <? length d);
      [change (length (units "...")) with 3|change (length (@nil N)) with 0]; lia.
  - intros d -> Hd Hlen. simpl. destruct d as [|c d]; [done|].
    cbn [truthy].
    destruct (strip_from_spec _ (c :: d) (le_n _)) as [_ Hsub%sublist_length].
    fold (strip_tags (c :: d)) in Hsub.
    rewrite take_ge by lia.
    destruct (Nat.ltb_spec 100 (length (c :: d))); [lia|]. apply app_nil_r.
Qed.

Lemma card_description_sample :
  card_description (Some (units "<b>Silk</b> gown")) = units "Silk gown".
Proof.
  etrans.
  - apply (proj2 (card_description_is_short (Some (units "<b>Silk</b> gown")))
             (units "<b>Silk</b> gown") eq_refl).
    + discriminate.
    + vm_compute. lia.
  - reflexivity.
Defined.

End ResultsPage.
